(** * versatileimagefield.utils: names, paths, size keys and URL resolution

    A shallow embedding of [src/versatileimagefield/utils.py].

    Python [str] values are modelled as [string] (sequences of 8-bit
    characters, of which [lower] changes the ASCII capitals only), Python
    [int] as [Z], a raised exception as the [Raised] case of [result], the
    MIME dictionary as a [gmap], and the mutable result dictionary of
    [build_versatileimagefield_url_set] as an insertion-ordered association
    list. [os.path] is the POSIX one. The order in which [list(set(...))]
    enumerates a set is a parameter ([SetOrder]). *)

From Stdlib Require Import ZArith String Ascii List Lia DecimalString Decimal.
From Stdlib Require DecimalPos DecimalZ.
From stdpp Require Import base option list strings gmap.

Local Open Scope string_scope.

(** ** Python string primitives *)

Module PyStr.

(** [c in s] for a one-character needle. *)
Fixpoint contains (c : ascii) (s : string) : bool :=
  match s with
  | EmptyString => false
  | String a s' => if Ascii.eqb a c then true else contains c s'
  end.

(** [s.split('__')]: cut at every non-overlapping occurrence of the
    two-character separator, scanning from the left; never empty. *)
Fixpoint split_dunder (s : string) : list string :=
  match s with
  | EmptyString => [EmptyString]
  | String "_" (String "_" rest) => EmptyString :: split_dunder rest
  | String c rest =>
      match split_dunder rest with
      | h :: t => String c h :: t
      | [] => [String c EmptyString]
      end
  end.


(** [s.rsplit('.', 1)]: [Some (before, after)] around the last dot, [None]
    when the result list has a single element (no dot in [s]). *)
Fixpoint rsplit_dot (s : string) : option (string * string) :=
  match s with
  | EmptyString => None
  | String c s' =>
      match rsplit_dot s' with
      | Some (a, b) => Some (String c a, b)
      | None => if Ascii.eqb c "." then Some (EmptyString, s') else None
      end
  end.

(** [c.lower()] on one character: ASCII capitals are mapped to small
    letters, every other character is unchanged. *)
Definition lower_ascii (c : ascii) : ascii :=
  let n := nat_of_ascii c in
  if (65 <=? n)%nat && (n <=? 90)%nat then ascii_of_nat (n + 32) else c.

Fixpoint lower (s : string) : string :=
  match s with
  | EmptyString => EmptyString
  | String c s' => String (lower_ascii c) (lower s')
  end.

(** [s.replace(' ', '')] *)
Fixpoint remove_spaces (s : string) : string :=
  match s with
  | EmptyString => EmptyString
  | String c s' =>
      if Ascii.eqb c " " then remove_spaces s' else String c (remove_spaces s')
  end.

(** ["%d" % n] for an integer [n]. *)
Definition fmt_d (n : Z) : string := NilZero.string_of_int (Z.to_int n).

(** [s.startswith('/')] and [s.endswith('/')] *)
Definition starts_with_slash (s : string) : bool :=
  match s with
  | String "/" _ => true
  | _ => false
  end.

Fixpoint ends_with_slash (s : string) : bool :=
  match s with
  | EmptyString => false
  | String c EmptyString => Ascii.eqb c "/"
  | String _ s' => ends_with_slash s'
  end.

(** [s == '/' * len(s)] *)
Fixpoint all_slashes (s : string) : bool :=
  match s with
  | EmptyString => true
  | String c s' => Ascii.eqb c "/" && all_slashes s'
  end.

(** [s.rstrip('/')] *)
Fixpoint rstrip_slash (s : string) : string :=
  match s with
  | EmptyString => EmptyString
  | String c s' =>
      match rstrip_slash s' with
      | EmptyString => if Ascii.eqb c "/" then EmptyString else String c EmptyString
      | r => String c r
      end
  end.

Definition is_empty (s : string) : bool :=
  match s with EmptyString => true | _ => false end.

End PyStr.

(** ** os.path on a POSIX host (CPython's posixpath) *)

Module PosixPath.

(** [(p[:i], p[i:])] for [i = p.rfind('/') + 1]. The first component is
    empty exactly when [p] has no slash. *)
Fixpoint cut_after_last_slash (p : string) : string * string :=
  match p with
  | EmptyString => (EmptyString, EmptyString)
  | String c p' =>
      let '(h, t) := cut_after_last_slash p' in
      if negb (PyStr.is_empty h) then (String c h, t)
      else if Ascii.eqb c "/" then (String c EmptyString, p')
      else (EmptyString, String c p')
  end.

(** [os.path.split(p)] *)
Definition split (p : string) : string * string :=
  let '(head, tail) := cut_after_last_slash p in
  let head :=
    if negb (PyStr.is_empty head) && negb (PyStr.all_slashes head)
    then PyStr.rstrip_slash head else head in
  (head, tail).

(** One iteration of the loop of [os.path.join]. *)
Definition join_step (path b : string) : string :=
  if PyStr.starts_with_slash b then b
  else if PyStr.is_empty path || PyStr.ends_with_slash path then path ++ b
  else path ++ "/" ++ b.

(** [os.path.join(a, *p)] *)
Definition join (a : string) (p : list string) : string :=
  fold_left join_step p a.

End PosixPath.

(** ** Python values, exceptions and results *)

(** The values a size-key collection can hold: [None], integers, strings,
    tuples and lists. Equality of these values in Python is structural. *)
#[warnings="-register-all"] Inductive pyval :=
| PNone
| PInt (n : Z)
| PStr (s : string)
| PTuple (items : list pyval)
| PList (items : list pyval).

Fixpoint pyval_eqb (a b : pyval) : bool :=
  let fix all2 (l1 l2 : list pyval) : bool :=
    match l1, l2 with
    | [], [] => true
    | x :: l1', y :: l2' => pyval_eqb x y && all2 l1' l2'
    | _, _ => false
    end in
  match a, b with
  | PNone, PNone => true
  | PInt n, PInt m => Z.eqb n m
  | PStr s, PStr t => String.eqb s t
  | PTuple l1, PTuple l2 => all2 l1 l2
  | PList l1, PList l2 => all2 l1 l2
  | _, _ => false
  end.

(** [hash(v)] succeeds: lists are unhashable, a tuple is hashable when all
    of its items are. *)
Fixpoint hashable (v : pyval) : bool :=
  match v with
  | PNone | PInt _ | PStr _ => true
  | PTuple items => forallb hashable items
  | PList _ => false
  end.

(** Exception classes: the built-in ones this module can meet, the two it
    declares, and Django's [ImproperlyConfigured]. *)
Inductive exn_class :=
| AttributeError
| KeyError
| TypeError
| ValueError
| IndexError
| InvalidSizeKeySet
| InvalidSizeKey
| ImproperlyConfigured.

Definition class_name (c : exn_class) : string :=
  match c with
  | AttributeError => "AttributeError"
  | KeyError => "KeyError"
  | TypeError => "TypeError"
  | ValueError => "ValueError"
  | IndexError => "IndexError"
  | InvalidSizeKeySet => "InvalidSizeKeySet"
  | InvalidSizeKey => "InvalidSizeKey"
  | ImproperlyConfigured => "ImproperlyConfigured"
  end.

(** A raised exception: its class and the value its message is built from
    (the missing attribute name, the missing key, the offending size key or
    the offending collection). *)
Record exn := Exn { exn_cls : exn_class; exn_about : pyval }.

Inductive result (A : Type) :=
| Ok (a : A)
| Raised (e : exn).
Arguments Ok {A} a.
Arguments Raised {A} e.

#[global] Instance result_ret : MRet result := fun A a => Ok a.
#[global] Instance result_bind : MBind result := fun A B f m =>
  match m with
  | Ok a => f a
  | Raised e => Raised e
  end.

Definition raise {A} (c : exn_class) (about : pyval) : result A :=
  Raised (Exn c about).

(** [l[-1]] *)
Definition index_last {A} (l : list A) : result A :=
  match last l with
  | Some x => Ok x
  | None => raise IndexError PNone
  end.

(** [l.pop(-1)]: the removed item and the list that is left. *)
Definition pop_last {A} (l : list A) : result (A * list A) :=
  match last l with
  | Some x => Ok (x, removelast l)
  | None => raise IndexError PNone
  end.

(** [v.split('__')]: only strings have the method. *)
Definition py_split_dunder (v : pyval) : result (list string) :=
  match v with
  | PStr s => Ok (PyStr.split_dunder s)
  | _ => raise AttributeError (PStr "split")
  end.

(** The target list [key, size_key] of a [for] statement or an assignment:
    sequences of length two unpack (a string into its two characters), other
    sequences raise [ValueError], values that are not iterable [TypeError]. *)
Definition unpack2 (v : pyval) : result (pyval * pyval) :=
  match v with
  | PTuple [a; b] | PList [a; b] => Ok (a, b)
  | PStr (String a (String b EmptyString)) =>
      Ok (PStr (String a EmptyString), PStr (String b EmptyString))
  | PTuple _ | PList _ | PStr _ => raise ValueError v
  | PNone | PInt _ => raise TypeError v
  end.

(** The order in which [list(set(l))] enumerates the distinct items of a list
    of hashable values. Python fixes no order: any enumeration without
    repetition of the items of [l] is possible. *)
Class SetOrder := {
  set_list : list pyval -> list pyval;
  set_list_NoDup : forall l, NoDup (set_list l);
  set_list_elem : forall l x, x ∈ set_list l <-> x ∈ l
}.

(** [list(set(l))] *)
Definition py_list_set `{SetOrder} (l : list pyval) : result (list pyval) :=
  match List.find (fun v => negb (hashable v)) l with
  | Some v => raise TypeError v
  | None => Ok (set_list l)
  end.

(** An enumeration that keeps the first occurrence of every item. *)
Fixpoint first_occurrences (seen l : list pyval) : list pyval :=
  match l with
  | [] => []
  | x :: l' =>
      if existsb (pyval_eqb x) seen then first_occurrences seen l'
      else x :: first_occurrences (x :: seen) l'
  end.

(** A [dict] with insertion order: [d[k] = v] replaces in place or appends. *)
Fixpoint dict_set {V} (d : list (pyval * V)) (k : pyval) (v : V) : list (pyval * V) :=
  match d with
  | [] => [(k, v)]
  | (k', v') :: d' =>
      if pyval_eqb k' k then (k', v) :: d' else (k', v') :: dict_set d' k v
  end.

Fixpoint dict_get {V} (d : list (pyval * V)) (k : pyval) : option V :=
  match d with
  | [] => None
  | (k', v') :: d' => if pyval_eqb k' k then Some v' else dict_get d' k
  end.

Definition py_dict_set {V} (d : list (pyval * V)) (k : pyval) (v : V)
  : result (list (pyval * V)) :=
  if hashable k then Ok (dict_set d k v) else raise TypeError k.

(** ** Collaborators *)

(** The names imported from [.settings]. The post processor, when set, is a
    function on image keys. *)
Record settings := Settings {
  IMAGE_SETS : gmap string (list pyval);
  JPEG_QUAL : Z;
  VERSATILEIMAGEFIELD_POST_PROCESSOR : option (string -> string);
  VERSATILEIMAGEFIELD_SIZED_DIRNAME : string;
  VERSATILEIMAGEFIELD_FILTERED_DIRNAME : string;
  WEBP_QUAL : Z
}.

(** The objects reached from an image instance: [getattr(o, name)],
    [o[key]] for a string key, and [bool(o)]. *)
Class ObjectModel (obj : Type) := {
  py_getattr : obj -> string -> result obj;
  py_getitem : obj -> string -> result obj;
  py_bool : obj -> bool
}.

(** The [request] argument: its [build_absolute_uri] method. *)
Record request_t (obj : Type) := Request {
  build_absolute_uri : obj -> obj
}.
Arguments build_absolute_uri {obj} r u.

(** A file-like object: its bytes and the read position. *)
Record file_like := FileLike {
  file_bytes : list ascii;
  file_pos : nat
}.

Definition seek (f : file_like) (pos : nat) : file_like :=
  {| file_bytes := file_bytes f; file_pos := pos |}.

(** One match reported by [puremagic]. *)
Record magic_match := MagicMatch {
  mime_type : string;
  confidence : Z
}.

(** A tree of plain objects, used to run the resolver: a string without
    attributes of interest, or an object with named attributes, keyed items
    and a truth value. *)
#[warnings="-register-all"] Inductive pyobj :=
| OStr (s : string)
| OObj (truth : bool) (attrs : list (string * pyobj)) (items : list (string * pyobj)).

Fixpoint assoc {V} (l : list (string * V)) (k : string) : option V :=
  match l with
  | [] => None
  | (k', v) :: l' => if String.eqb k' k then Some v else assoc l' k
  end.

#[global] Instance pyobj_model : ObjectModel pyobj := {|
  py_getattr o name :=
    match o with
    | OStr _ => raise AttributeError (PStr name)
    | OObj _ attrs _ =>
        match assoc attrs name with
        | Some v => Ok v
        | None => raise AttributeError (PStr name)
        end
    end;
  py_getitem o key :=
    match o with
    | OStr _ => raise TypeError (PStr key)
    | OObj _ _ items =>
        match assoc items key with
        | Some v => Ok v
        | None => raise KeyError (PStr key)
        end
    end;
  py_bool o :=
    match o with
    | OStr s => negb (PyStr.is_empty s)
    | OObj t _ _ => t
    end
|}.

(** ** The module *)

Definition MIME_TYPE_TO_PIL_IDENTIFIER : gmap string string :=
  list_to_map [
    ("image/x-ms-bmp", "BMP");
    ("image/bmp", "BMP");
    ("image/dcx", "DCX");
    ("image/eps", "eps");
    ("image/gif", "GIF");
    ("image/jpeg", "JPEG");
    ("image/pcd", "PCD");
    ("image/pcx", "PCX");
    ("application/pdf", "PDF");
    ("image/png", "PNG");
    ("image/x-ppm", "PPM");
    ("image/psd", "PSD");
    ("image/tiff", "TIFF");
    ("image/x-xbitmap", "XBM");
    ("image/x-xpm", "XPM");
    ("image/webp", "WEBP")
  ].

Section Utils.

Context (cfg : settings).
Context {Storage : Type}.

Definition post_process_image_key (image_key : string) : string :=
  match VERSATILEIMAGEFIELD_POST_PROCESSOR cfg with
  | None => image_key
  | Some processor => processor image_key
  end.

(** [filename.rsplit('.', 1)] unpacked into two names, with the fallback of
    the [except ValueError] branch. *)
Definition name_and_ext (filename : string) : string * string :=
  match PyStr.rsplit_dot filename with
  | Some (image_name, ext) => (image_name, ext)
  | None => (filename, "jpg")
  end.

Definition get_resized_filename (filename : string) (width height : Z)
    (filename_key : string) : string :=
  let '(image_name, ext) := name_and_ext filename in
  let resized_template :=
    filename_key ++ "-" ++ PyStr.fmt_d width ++ "x" ++ PyStr.fmt_d height in
  let quality :=
    if String.eqb (PyStr.lower ext) "webp" then WEBP_QUAL cfg else JPEG_QUAL cfg in
  let resized_key :=
    if existsb (String.eqb (PyStr.lower ext)) ["jpg"; "jpeg"; "webp"]
    then resized_template ++ "-" ++ PyStr.fmt_d quality
    else resized_template in
  image_name ++ "-" ++ post_process_image_key resized_key ++ "." ++ ext.

Definition get_resized_path (path_to_image : string) (width height : Z)
    (filename_key : string) (storage : Storage) : string :=
  let '(containing_folder, filename) := PosixPath.split path_to_image in
  let resized_filename := get_resized_filename filename width height filename_key in
  let joined_path :=
    PyStr.remove_spaces
      (PosixPath.join (VERSATILEIMAGEFIELD_SIZED_DIRNAME cfg)
         [containing_folder; resized_filename]) in
  joined_path.

Definition get_filtered_filename (filename filename_key : string) : string :=
  let '(image_name, ext) := name_and_ext filename in
  image_name ++ "__" ++ filename_key ++ "__." ++ ext.

Definition get_filtered_path (path_to_image filename_key : string)
    (storage : Storage) : string :=
  let '(containing_folder, filename) := PosixPath.split path_to_image in
  let filtered_filename := get_filtered_filename filename filename_key in
  let path_to_return :=
    PosixPath.join containing_folder
      [VERSATILEIMAGEFIELD_FILTERED_DIRNAME cfg; filtered_filename] in
  let path_to_return := PyStr.remove_spaces path_to_return in
  path_to_return.

(** [puremagic.magic_stream]: the matches, best first, and the stream as
    the reads leave it. *)
Context (magic_stream : file_like -> list magic_match * file_like).

Definition get_image_metadata_from_file (file : file_like)
    : result (string * string) * file_like :=
  let '(matches, file) := magic_stream file in
  let mime :=
    if negb (bool_decide (matches = [])) && (0 <? length matches)%nat
    then match matches with
         | m :: _ => mime_type m
         | [] => EmptyString
         end
    else EmptyString in
  let file := seek file 0 in
  match MIME_TYPE_TO_PIL_IDENTIFIER !! mime with
  | Some image_format => (Ok (image_format, mime), file)
  | None => (raise KeyError (PStr mime), file)
  end.

Context {SO : SetOrder}.

(** The test on one size key inside the loop. *)
Definition check_size_key (size_key : pyval) : result unit :=
  size_key_split ← py_split_dunder size_key;
  last1 ← index_last size_key_split;
  if negb (String.eqb last1 "url")
  then
    last2 ← index_last size_key_split;
    if negb (PyStr.contains "x" last2) then raise InvalidSizeKey size_key
    else Ok tt
  else Ok tt.

(** The [for key, size_key in sizes] loop. *)
Fixpoint validate_loop (sizes : list pyval) : result unit :=
  match sizes with
  | [] => Ok tt
  | elem :: rest =>
      p ← unpack2 elem;
      _ ← check_size_key p.2;
      validate_loop rest
  end.

Definition validate_versatileimagefield_sizekey_list (sizes : list pyval)
    : result (list pyval) :=
  match validate_loop sizes with
  | Raised (Exn ValueError _) => raise InvalidSizeKeySet (PList sizes)
  | Raised e => Raised e
  | Ok _ => py_list_set sizes
  end.

Context {obj : Type} {OM : ObjectModel obj}.

(** [reduce(getattr, names, start)] *)
Fixpoint reduce_getattr (names : list string) (start : obj) : result obj :=
  match names with
  | [] => Ok start
  | name :: rest => o ← py_getattr start name; reduce_getattr rest o
  end.

(** The truth value of [size_key], a string or [None]. *)
Definition size_key_truth (size_key : option string) : bool :=
  match size_key with
  | Some s => negb (PyStr.is_empty s)
  | None => false
  end.

Definition get_url_from_image_key (image_instance : obj) (image_key : pyval)
    : result obj :=
  img_key_split ← py_split_dunder image_key;
  last1 ← index_last img_key_split;
  st ← (if PyStr.contains "x" last1
        then p ← pop_last img_key_split; Ok (p.2, Some p.1)
        else Ok (img_key_split, None));
  img_url ← reduce_getattr st.1 image_instance;
  if size_key_truth st.2
  then
    match st.2 with
    | Some size_key => entry ← py_getitem img_url size_key; py_getattr entry "url"
    | None => Ok img_url
    end
  else Ok img_url.

(** The [for key, image_key in size_set] loop filling [to_return]. *)
Fixpoint build_loop (image_instance : obj) (request : option (request_t obj))
    (size_set : list pyval) (to_return : list (pyval * obj))
    : result (list (pyval * obj)) :=
  match size_set with
  | [] => Ok to_return
  | elem :: rest =>
      p ← unpack2 elem;
      img_url ← get_url_from_image_key image_instance p.2;
      let img_url :=
        match request with
        | Some r => build_absolute_uri r img_url
        | None => img_url
        end in
      to_return ← py_dict_set to_return p.1 img_url;
      build_loop image_instance request rest to_return
  end.

(** [image_instance or image_instance.field.placeholder_image] as the
    condition of an [if]. *)
Definition has_image_or_placeholder (image_instance : obj) : result bool :=
  if py_bool image_instance then Ok true
  else
    field ← py_getattr image_instance "field";
    placeholder_image ← py_getattr field "placeholder_image";
    Ok (py_bool placeholder_image).

Definition build_versatileimagefield_url_set (image_instance : obj)
    (size_set : list pyval) (request : option (request_t obj))
    : result (list (pyval * obj)) :=
  size_set ← validate_versatileimagefield_sizekey_list size_set;
  cond ← has_image_or_placeholder image_instance;
  if (cond : bool) then build_loop image_instance request size_set []
  else Ok [].

Definition get_rendition_key_set (key : string) : result (list pyval) :=
  match IMAGE_SETS cfg !! key with
  | None => raise ImproperlyConfigured (PStr key)
  | Some rendition_key_set =>
      validate_versatileimagefield_sizekey_list rendition_key_set
  end.

End Utils.

(** ** The claims' vocabulary, in the words of the specification *)

Module Spec.

(** The stem and the extension of a file name: cut on the last dot, or the
    whole name and ["jpg"] when there is no dot. *)
Definition stem_ext (fileName stem ext : string) : Prop :=
  (PyStr.contains "." fileName = false /\ stem = fileName /\ ext = "jpg") \/
  (fileName = stem ++ "." ++ ext /\ PyStr.contains "." ext = false).

(** The extension is, case-insensitively, one of jpg, jpeg, webp. *)
Definition lossy (ext : string) : bool :=
  bool_decide (PyStr.lower ext = "jpg" \/ PyStr.lower ext = "jpeg"
               \/ PyStr.lower ext = "webp").

(** The quality part of a sized key. *)
Definition quality_suffix (cfg : settings) (ext : string) : string :=
  if lossy ext
  then "-" ++ PyStr.fmt_d (if bool_decide (PyStr.lower ext = "webp")
                           then WEBP_QUAL cfg else JPEG_QUAL cfg)
  else "".

(** The post-processing hook, the identity when none is configured. *)
Definition hook (cfg : settings) : string -> string :=
  default (fun k => k) (VERSATILEIMAGEFIELD_POST_PROCESSOR cfg).

(** The key of a sized name before the hook. *)
Definition resized_key (cfg : settings) (ext : string) (width height : Z)
    (filenameKey : string) : string :=
  filenameKey ++ "-" ++ PyStr.fmt_d width ++ "x" ++ PyStr.fmt_d height
  ++ quality_suffix cfg ext.

(** The last segment of a size key. *)
Definition last_segment (sizeKey : string) : string :=
  List.last (PyStr.split_dunder sizeKey) "".

(** The grammar of a size key: its last segment is [url] or contains [x]. *)
Definition size_key_ok (sizeKey : string) : bool :=
  bool_decide (last_segment sizeKey = "url")
  || PyStr.contains "x" (last_segment sizeKey).

(** An element that is a pair whose size key is a string of the grammar. *)
Definition good_pair (elem : pyval) : bool :=
  match unpack2 elem with
  | Ok (_, PStr k) => size_key_ok k
  | _ => false
  end.

(** An element that is a sequence but not of exactly two items. *)
Definition bad_shape (elem : pyval) : bool :=
  match unpack2 elem with
  | Raised (Exn ValueError _) => true
  | _ => false
  end.

(** An element that is a pair whose size key is a string outside the
    grammar. *)
Definition bad_key (elem : pyval) (k : string) : Prop :=
  exists label, unpack2 elem = Ok (label, PStr k) /\ size_key_ok k = false.

(** The pair (label, sizeKey) as a Python 2-tuple of strings. *)
Definition pair_val (p : string * string) : pyval :=
  PTuple [PStr p.1; PStr p.2].

(** The capability walk: the segments are looked up left to right, starting
    from the root. *)
Definition walk `{ObjectModel obj} (segments : list string) (root : obj)
    : result obj :=
  fold_left (fun cur name => o ← cur; py_getattr o name) segments (Ok root).

(** The dimension token of a size key, when its last segment contains [x]. *)
Definition dimension_token (sizeKey : string) : option string :=
  if PyStr.contains "x" (last_segment sizeKey)
  then Some (last_segment sizeKey) else None.

(** The segments that are walked: all of them, or all but the popped
    dimension token. *)
Definition chain (sizeKey : string) : list string :=
  match dimension_token sizeKey with
  | Some _ => removelast (PyStr.split_dunder sizeKey)
  | None => PyStr.split_dunder sizeKey
  end.

Definition ResolveURL `{ObjectModel obj} (root : obj) (sizeKey : string)
    : result obj :=
  final ← walk (chain sizeKey) root;
  match dimension_token sizeKey with
  | Some token => entry ← py_getitem final token; py_getattr entry "url"
  | None => Ok final
  end.


(** The MIME string that is looked up: the first candidate's, or the empty
    string without candidates. *)
Definition sniffed_mime (candidates : list magic_match) : string :=
  match candidates with
  | m :: _ => mime_type m
  | [] => ""
  end.

(** The labels of a collection of pairs. *)
Definition label_of (elem : pyval) : pyval :=
  match unpack2 elem with
  | Ok (l, _) => l
  | Raised _ => PNone
  end.

Definition key_of (elem : pyval) : pyval :=
  match unpack2 elem with
  | Ok (_, k) => k
  | Raised _ => PNone
  end.

(** The URL stored for a resolved value: rewritten when a request is given. *)
Definition rewritten {obj} (request : option (request_t obj)) (u : obj) : obj :=
  match request with
  | Some r => build_absolute_uri r u
  | None => u
  end.

(** The image instance is falsy and its field has no placeholder image. *)
Definition no_image_no_placeholder `{ObjectModel obj} (img : obj) : Prop :=
  py_bool img = false /\
  exists field placeholder,
    py_getattr img "field" = Ok field /\
    py_getattr field "placeholder_image" = Ok placeholder /\
    py_bool placeholder = false.

(** The image instance is truthy, or its field has a placeholder image. *)
Definition image_or_placeholder `{ObjectModel obj} (img : obj) : Prop :=
  py_bool img = true \/
  exists field placeholder,
    py_getattr img "field" = Ok field /\
    py_getattr field "placeholder_image" = Ok placeholder /\
    py_bool placeholder = true.

(** The mapping has exactly one entry per pair of the validated set, and
    maps the label of each pair to its URL. *)
Definition one_entry_per_pair `{ObjectModel obj} (img : obj)
    (request : option (request_t obj)) (pairs : list pyval)
    (m : list (pyval * obj)) : Prop :=
  length m = length pairs /\
  forall e u,
    e ∈ pairs ->
    get_url_from_image_key img (key_of e) = Ok u ->
    dict_get m (label_of e) = Some (rewritten request u).

End Spec.

(** ** Concrete inputs *)

(** The image object of the end-to-end example: capability [crop] with the
    keyed entry [400x400]. *)
Definition example_root : pyobj :=
  OObj true
    [("crop", OObj true [] [("400x400", OObj true [("url", OStr "http://x/y.jpg")] [])])]
    [].

(** A configuration whose hook replaces every key by a digest. *)
Definition hashing_cfg : settings :=
  Settings ∅ 70 (Some (fun _ => "HASH")) "__sized__" "__filtered__" 75.

Definition plain_cfg : settings :=
  Settings ∅ 70 None "__sized__" "__filtered__" 75.

(** A sniffer that reports one candidate, [text/plain]. *)
Definition sniff_text (f : file_like) : list magic_match * file_like :=
  ([MagicMatch "text/plain" 100], f).

(** An image object without any capability. *)
Definition bare_root : pyobj := OObj true [] [].

(** A collection whose first element is a pair with a key outside the
    grammar and whose second element is a 1-tuple; and a collection of one
    pair given as a list instead of a tuple. *)
Definition mixed_sizes : list pyval :=
  [PTuple [PStr "a"; PStr "crop_400_400"]; PTuple [PStr "b"]].

Definition list_pair_sizes : list pyval :=
  [PList [PStr "large"; PStr "url"]].

(** Two valid pairs with different labels. *)
Definition two_pairs : list (string * string) :=
  [("large", "url"); ("medium", "crop__400x400")].

(** An image with a URL and the [crop] capability; an empty image whose
    field has no placeholder. *)
Definition example_image : pyobj :=
  OObj true
    [("url", OStr "http://x/o.jpg");
     ("crop", OObj true [] [("400x400", OObj true [("url", OStr "http://x/y.jpg")] [])])]
    [].

Definition empty_image : pyobj :=
  OObj false [("field", OObj true [("placeholder_image", OStr "")] [])] [].

(** Two distinct pairs that carry the same label. *)
Definition clashing_sizes : list pyval :=
  [PTuple [PStr "a"; PStr "url"]; PTuple [PStr "a"; PStr "crop__400x400"]].

(** A valid pair whose capability the example image does not have. *)
Definition unresolved_sizes : list pyval :=
  [PTuple [PStr "small"; PStr "thumbnail__100x100"]].

(** ** Strings *)

#[local] Arguments String.append !s1 s2 / : simpl nomatch.

Example split_ex1 : PyStr.split_dunder "crop__400x400" = ["crop"; "400x400"].
Proof. reflexivity. Qed.
Example split_ex2 : PyStr.split_dunder "a___b" = ["a"; "_b"].
Proof. reflexivity. Qed.
Example split_ex3 : PyStr.split_dunder "" = [""].
Proof. reflexivity. Qed.
Example split_ex4 : PyStr.split_dunder "__a____" = [""; "a"; ""; ""].
Proof. reflexivity. Qed.
Example rsplit_ex1 : PyStr.rsplit_dot "a.b.c" = Some ("a.b", "c").
Proof. reflexivity. Qed.
Example rsplit_ex2 : PyStr.rsplit_dot "noext" = None.
Proof. reflexivity. Qed.
Example rsplit_ex3 : PyStr.rsplit_dot "x." = Some ("x", "").
Proof. reflexivity. Qed.
Example lower_ex : PyStr.lower "JpEg" = "jpeg".
Proof. reflexivity. Qed.
Example fmt_ex : PyStr.fmt_d 400 = "400" /\ PyStr.fmt_d 0 = "0" /\ PyStr.fmt_d (-7) = "-7".
Proof. repeat split; reflexivity. Qed.
Example rstrip_ex : PyStr.rstrip_slash "a/b//" = "a/b" /\ PyStr.rstrip_slash "//" = "".
Proof. split; reflexivity. Qed.
Example posix_split_ex :
  PosixPath.split "media/pics/photo.jpg" = ("media/pics", "photo.jpg") /\
  PosixPath.split "/photo.jpg" = ("/", "photo.jpg") /\
  PosixPath.split "photo.jpg" = ("", "photo.jpg") /\
  PosixPath.split "a//b" = ("a", "b").
Proof. repeat split; reflexivity. Qed.
Example posix_join_ex :
  PosixPath.join "__sized__" ["media"; "p.jpg"] = "__sized__/media/p.jpg" /\
  PosixPath.join "__sized__" [""; "p.jpg"] = "__sized__/p.jpg" /\
  PosixPath.join "" ["__filtered__"; "p.jpg"] = "__filtered__/p.jpg" /\
  PosixPath.join "__sized__" ["/abs"; "p.jpg"] = "/abs/p.jpg".
Proof. repeat split; reflexivity. Qed.

Lemma contains_app c a b :
  PyStr.contains c (a ++ b) = PyStr.contains c a || PyStr.contains c b.
Proof.
  induction a as [|x a IH]; simpl; [reflexivity|].
  destruct (Ascii.eqb x c); [reflexivity | exact IH].
Qed.

Lemma contains_nonempty c s : PyStr.contains c s = true -> PyStr.is_empty s = false.
Proof. destruct s; simpl; [discriminate | reflexivity]. Qed.

Lemma string_app_assoc (a b c : string) : (a ++ b) ++ c = a ++ (b ++ c).
Proof. induction a as [|x a IH]; simpl; [reflexivity | by rewrite IH]. Qed.

Lemma string_app_nil_r (a : string) : a ++ "" = a.
Proof. induction a as [|x a IH]; simpl; [reflexivity | by rewrite IH]. Qed.

(** [rsplit('.', 1)] finds no dot exactly in the names without one. *)
Lemma rsplit_dot_None s :
  PyStr.rsplit_dot s = None <-> PyStr.contains "." s = false.
Proof.
  induction s as [|c s IH]; simpl; [tauto|].
  destruct (PyStr.rsplit_dot s) as [[a b]|] eqn:E.
  - destruct (Ascii.eqb c ".") eqn:Ec; [split; discriminate|].
    split; [discriminate|]. intros H. apply IH in H. discriminate.
  - destruct (Ascii.eqb c ".") eqn:Ec; [split; discriminate|].
    split; [intros _; by apply IH | reflexivity].
Qed.

(** [rsplit('.', 1)] cuts at the last dot. *)
Lemma rsplit_dot_Some s a b :
  PyStr.rsplit_dot s = Some (a, b) <->
  s = a ++ "." ++ b /\ PyStr.contains "." b = false.
Proof.
  revert a. induction s as [|c s IH]; intros a; simpl.
  - split; [discriminate|]. intros [H _]. destruct a; discriminate.
  - destruct (PyStr.rsplit_dot s) as [[a' b']|] eqn:E.
    + split.
      * intros [= <- <-]. destruct (proj1 (IH a') eq_refl) as [-> Hb].
        split; [reflexivity | exact Hb].
      * intros [H Hb]. destruct a as [|x a]; simpl in H.
        -- injection H as -> ->.
           assert (PyStr.rsplit_dot b = None) by by apply rsplit_dot_None.
           congruence.
        -- injection H as -> Hs.
           assert (Some (a', b') = Some (a, b)) as E' by (apply IH; auto).
           congruence.
    + pose proof (proj1 (rsplit_dot_None s) E) as Hs.
      destruct (Ascii.eqb c ".") eqn:Ec.
      * apply Ascii.eqb_eq in Ec as ->. split.
        -- intros [= <- <-]. auto.
        -- intros [H Hb]. destruct a as [|x a]; simpl in H.
           ++ by injection H as ->.
           ++ injection H as <- ->. rewrite contains_app in Hs.
              destruct (PyStr.contains "." a); simpl in Hs; discriminate.
      * split; [discriminate|]. intros [H Hb].
        destruct a as [|x a]; simpl in H.
        -- injection H as -> ->. by rewrite Ascii.eqb_refl in Ec.
        -- injection H as -> ->. rewrite contains_app in Hs.
           destruct (PyStr.contains "." a); simpl in Hs; discriminate.
Qed.

Lemma name_and_ext_spec filename :
  Spec.stem_ext filename (name_and_ext filename).1 (name_and_ext filename).2.
Proof.
  unfold name_and_ext, Spec.stem_ext.
  destruct (PyStr.rsplit_dot filename) as [[a b]|] eqn:E; simpl.
  - right. by apply rsplit_dot_Some.
  - left. split; [by apply rsplit_dot_None | done].
Qed.

(** The stem and the extension of a name are unique. *)
Lemma stem_ext_unique filename stem ext :
  Spec.stem_ext filename stem ext -> name_and_ext filename = (stem, ext).
Proof.
  unfold Spec.stem_ext, name_and_ext. intros [(Hn & -> & ->) | [H Hb]].
  - apply rsplit_dot_None in Hn. by rewrite Hn.
  - assert (PyStr.rsplit_dot filename = Some (stem, ext)) as ->
      by by apply rsplit_dot_Some.
    reflexivity.
Qed.

(** [replace(' ', '')] leaves no space and keeps the other characters. *)
Lemma remove_spaces_no_space s :
  PyStr.contains " " (PyStr.remove_spaces s) = false.
Proof.
  induction s as [|c s IH]; simpl; [reflexivity|].
  destruct (Ascii.eqb c " ") eqn:E; [exact IH|]. simpl. by rewrite E.
Qed.

Lemma remove_spaces_filter s :
  list_ascii_of_string (PyStr.remove_spaces s) =
  List.filter (fun c => negb (Ascii.eqb c " ")) (list_ascii_of_string s).
Proof.
  induction s as [|c s IH]; simpl; [reflexivity|].
  destruct (Ascii.eqb c " "); simpl; [exact IH | by rewrite IH].
Qed.

(** [split('__')] never returns an empty list, and joining gives the key
    back. *)
Lemma split_dunder_nonempty s : PyStr.split_dunder s <> [].
Proof.
  induction s as [|c s IH]; simpl; [discriminate|].
  destruct (PyStr.split_dunder s) as [|h t] eqn:E; [congruence|].
  destruct (Ascii.eqb c "_") eqn:Ec.
  - apply Ascii.eqb_eq in Ec as ->. destruct s as [|d s']; [discriminate|].
    destruct (Ascii.eqb d "_") eqn:Ed.
    + apply Ascii.eqb_eq in Ed as ->. discriminate.
    + destruct d as [[] [] [] [] [] [] [] []]; try discriminate.
  - destruct c as [[] [] [] [] [] [] [] []]; try discriminate.
Qed.



Lemma split_dunder_step c rest :
  (exists r, c = "_"%char /\ rest = String "_" r /\
     PyStr.split_dunder (String c rest) = "" :: PyStr.split_dunder r) \/
  (exists h t, PyStr.split_dunder rest = h :: t /\
     PyStr.split_dunder (String c rest) = String c h :: t).
Proof.
  destruct (PyStr.split_dunder rest) as [|h t] eqn:E;
    [by apply split_dunder_nonempty in E|].
  destruct (Ascii.eqb c "_") eqn:Ec.
  - apply Ascii.eqb_eq in Ec as ->. destruct rest as [|d r].
    + right. exists h, t. split; [done|]. simpl in *. congruence.
    + destruct (Ascii.eqb d "_") eqn:Ed.
      * apply Ascii.eqb_eq in Ed as ->. left. by exists r.
      * right. exists h, t. split; [done|].
        change (PyStr.split_dunder (String "_" (String d r))) with
          (match d with
           | "_"%char => "" :: PyStr.split_dunder r
           | _ => match PyStr.split_dunder (String d r) with
                  | h :: t => String "_" h :: t
                  | [] => [String "_" ""]
                  end
           end).
        rewrite E.
        destruct d as [[] [] [] [] [] [] [] []]; try reflexivity; discriminate.
  - right. exists h, t. split; [done|].
    change (PyStr.split_dunder (String c rest)) with
      (match c, rest with
       | "_"%char, String "_" r => "" :: PyStr.split_dunder r
       | _, _ => match PyStr.split_dunder rest with
                 | h :: t => String c h :: t
                 | [] => [String c ""]
                 end
       end).
    rewrite E.
    destruct c as [[] [] [] [] [] [] [] []]; try reflexivity; discriminate.
Qed.


Lemma last_segment_split s :
  last (PyStr.split_dunder s) = Some (Spec.last_segment s).
Proof.
  unfold Spec.last_segment.
  destruct (PyStr.split_dunder s) as [|h t] eqn:E;
    [by apply split_dunder_nonempty in E|].
  clear E. revert h. induction t as [|x t IH]; intros h; [reflexivity|].
  change (last (h :: x :: t)) with (last (x :: t)).
  change (List.last (h :: x :: t) "") with (List.last (x :: t) "").
  apply IH.
Qed.

Lemma split_dunder_snoc s :
  PyStr.split_dunder s =
  (removelast (PyStr.split_dunder s) ++ [Spec.last_segment s])%list.
Proof.
  unfold Spec.last_segment.
  apply app_removelast_last, split_dunder_nonempty.
Qed.

(** ** Values *)

Lemma pyval_eqb_spec a : forall b, pyval_eqb a b = true <-> a = b.
Proof.
  revert a. fix IH 1. intros a.
  assert (Hl : forall l1 l2 : list pyval,
    (fix all2 (l1 l2 : list pyval) : bool :=
      match l1, l2 with
      | [], [] => true
      | x :: l1', y :: l2' => pyval_eqb x y && all2 l1' l2'
      | _, _ => false
      end) l1 l2 = true <-> l1 = l2).
  { fix IHl 1. intros [|x l1] [|y l2]; simpl;
      try (split; discriminate); [tauto|].
    rewrite andb_true_iff, IH, IHl.
    split; [intros [-> ->]; reflexivity | intros [= -> ->]; auto]. }
  destruct a, b; simpl; try (split; discriminate); try tauto.
  - rewrite Z.eqb_eq. split; congruence.
  - rewrite String.eqb_eq. split; congruence.
  - rewrite Hl. split; congruence.
  - rewrite Hl. split; congruence.
Qed.

Lemma pyval_eqb_refl a : pyval_eqb a a = true.
Proof. by apply pyval_eqb_spec. Qed.

Lemma pyval_eqb_neq a b : pyval_eqb a b = false <-> a <> b.
Proof.
  rewrite <- pyval_eqb_spec. destruct (pyval_eqb a b); split; congruence.
Qed.

#[global] Instance pyval_eq_dec : EqDecision pyval.
Proof.
  intros a b. destruct (pyval_eqb a b) eqn:E.
  - left. apply pyval_eqb_spec, E.
  - right. apply pyval_eqb_neq, E.
Defined.

Lemma existsb_eqb_elem x (seen : list pyval) :
  existsb (pyval_eqb x) seen = true <-> x ∈ seen.
Proof.
  rewrite existsb_exists, list_elem_of_In. split.
  - intros (y & Hy & E). apply pyval_eqb_spec in E. by subst.
  - intros H. exists x. split; [done | apply pyval_eqb_refl].
Qed.

Lemma first_occurrences_elem seen l x :
  x ∈ first_occurrences seen l <-> x ∈ l /\ x ∉ seen.
Proof.
  revert seen. induction l as [|y l IH]; intros seen; simpl.
  - rewrite elem_of_nil. tauto.
  - destruct (existsb (pyval_eqb y) seen) eqn:E.
    + apply existsb_eqb_elem in E. rewrite IH, elem_of_cons.
      split; [tauto|]. intros [[->|H] Hn]; tauto.
    + assert (y ∉ seen) as Hy.
      { intros H. apply existsb_eqb_elem in H. congruence. }
      rewrite !elem_of_cons, IH, elem_of_cons.
      destruct (decide (x = y)) as [->|Hne]; tauto.
Qed.

Lemma first_occurrences_NoDup seen l : NoDup (first_occurrences seen l).
Proof.
  revert seen. induction l as [|y l IH]; intros seen; simpl.
  - constructor.
  - destruct (existsb (pyval_eqb y) seen); [apply IH|].
    constructor; [|apply IH].
    rewrite first_occurrences_elem, elem_of_cons. tauto.
Qed.

Lemma first_occurrences_nil_elem l x : x ∈ first_occurrences [] l <-> x ∈ l.
Proof. rewrite first_occurrences_elem, elem_of_nil. tauto. Qed.

Lemma rev_first_occurrences_NoDup l : NoDup (reverse (first_occurrences [] l)).
Proof. rewrite reverse_Permutation. apply first_occurrences_NoDup. Qed.

Lemma rev_first_occurrences_elem l x :
  x ∈ reverse (first_occurrences [] l) <-> x ∈ l.
Proof. rewrite elem_of_reverse. apply first_occurrences_nil_elem. Qed.

(** One possible enumeration order: first occurrences, in input order. *)
#[global] Instance first_seen_order : SetOrder := {|
  set_list := first_occurrences [];
  set_list_NoDup := first_occurrences_NoDup [];
  set_list_elem := first_occurrences_nil_elem
|}.

(** Another one: the same items, enumerated backwards. *)
Definition last_seen_order : SetOrder := {|
  set_list l := reverse (first_occurrences [] l);
  set_list_NoDup := rev_first_occurrences_NoDup;
  set_list_elem := rev_first_occurrences_elem
|}.

(** ** os.path *)

Lemma cut_after_last_slash_spec p :
  let '(h, t) := PosixPath.cut_after_last_slash p in
  p = h ++ t /\ PyStr.contains "/" t = false /\
  (PyStr.is_empty h = true <-> PyStr.contains "/" p = false) /\
  (PyStr.is_empty h = false -> PyStr.ends_with_slash h = true).
Proof.
  induction p as [|c p IH]; simpl; [repeat split; auto; discriminate|].
  destruct (PosixPath.cut_after_last_slash p) as [h t].
  destruct IH as (-> & Ht & Hh & He).
  destruct h as [|x h]; simpl in *.
  - destruct (Ascii.eqb c "/") eqn:Ec; simpl.
    + rewrite Ec. repeat split; auto; discriminate.
    + rewrite Ec. repeat split; auto; discriminate.
  - repeat split; auto; try discriminate.
    intros H. destruct (Ascii.eqb c "/"); [discriminate|].
    apply Hh in H. discriminate.
Qed.

(** The file name returned by [os.path.split] has no slash, and a path
    without a slash is all file name. *)
Lemma posix_split_tail p : PyStr.contains "/" (PosixPath.split p).2 = false.
Proof.
  unfold PosixPath.split. pose proof (cut_after_last_slash_spec p) as H.
  destruct (PosixPath.cut_after_last_slash p) as [h t]. simpl. tauto.
Qed.

Lemma posix_split_no_slash p :
  PyStr.contains "/" p = false -> PosixPath.split p = ("", p).
Proof.
  intros Hp. unfold PosixPath.split.
  pose proof (cut_after_last_slash_spec p) as H.
  destruct (PosixPath.cut_after_last_slash p) as [h t].
  destruct H as (-> & _ & Hh & _). apply Hh in Hp.
  destruct h; [reflexivity | discriminate].
Qed.

(** ** File names and paths *)

Lemma lossy_existsb ext :
  existsb (String.eqb (PyStr.lower ext)) ["jpg"; "jpeg"; "webp"] = Spec.lossy ext.
Proof.
  unfold Spec.lossy. simpl.
  destruct (String.eqb_spec (PyStr.lower ext) "jpg") as [E1|E1];
    [by rewrite bool_decide_eq_true_2 by auto|].
  destruct (String.eqb_spec (PyStr.lower ext) "jpeg") as [E2|E2];
    [by rewrite bool_decide_eq_true_2 by auto|].
  destruct (String.eqb_spec (PyStr.lower ext) "webp") as [E3|E3];
    [by rewrite bool_decide_eq_true_2 by auto|].
  rewrite bool_decide_eq_false_2 by tauto. reflexivity.
Qed.

Lemma post_process_image_key_hook cfg k :
  post_process_image_key cfg k = Spec.hook cfg k.
Proof.
  unfold post_process_image_key, Spec.hook.
  by destruct (VERSATILEIMAGEFIELD_POST_PROCESSOR cfg).
Qed.

Lemma get_resized_filename_eq cfg filename width height filename_key :
  get_resized_filename cfg filename width height filename_key =
  (name_and_ext filename).1 ++ "-"
  ++ Spec.hook cfg
       (Spec.resized_key cfg (name_and_ext filename).2 width height filename_key)
  ++ "." ++ (name_and_ext filename).2.
Proof.
  unfold get_resized_filename. destruct (name_and_ext filename) as [stem ext].
  lazy beta iota zeta. rewrite post_process_image_key_hook, lossy_existsb.
  change (stem, ext).1 with stem. change (stem, ext).2 with ext.
  unfold Spec.resized_key, Spec.quality_suffix.
  assert ((PyStr.lower ext =? "webp") = bool_decide (PyStr.lower ext = "webp"))
    as ->.
  { destruct (String.eqb_spec (PyStr.lower ext) "webp") as [E|E].
    - by rewrite bool_decide_eq_true_2.
    - by rewrite bool_decide_eq_false_2. }
  destruct (Spec.lossy ext).
  - by rewrite !string_app_assoc.
  - by rewrite string_app_nil_r.
Qed.

(** C3. The sized name is [<stem>-<hook(key)>.<ext>], where the stem and
    the extension are cut on the last dot (the whole name and [jpg] without
    a dot) and the key is [<filenameKey>-<width>x<height>], followed by
    [-<quality>] exactly for the extensions jpg, jpeg and webp in any case,
    with the WEBP constant for webp and the JPEG constant otherwise. With
    JPEG quality 70 and no hook, [photo.jpg], 400, 300 and [crop] give
    [photo-crop-400x300-70.jpg]. *)
Theorem sized_name_template :
  (forall cfg fileName width height filenameKey,
     exists stem ext,
       Spec.stem_ext fileName stem ext /\
       get_resized_filename cfg fileName width height filenameKey =
       stem ++ "-"
       ++ Spec.hook cfg (Spec.resized_key cfg ext width height filenameKey)
       ++ "." ++ ext) /\
  (forall sets sized filtered webp,
     get_resized_filename (Settings sets 70 None sized filtered webp)
       "photo.jpg" 400 300 "crop" = "photo-crop-400x300-70.jpg").
Proof.
  split.
  - intros cfg fileName width height filenameKey.
    exists (name_and_ext fileName).1, (name_and_ext fileName).2.
    split; [apply name_and_ext_spec | apply get_resized_filename_eq].
  - intros. reflexivity.
Qed.

Lemma get_filtered_filename_eq filename filename_key :
  get_filtered_filename filename filename_key =
  (name_and_ext filename).1 ++ "__" ++ filename_key ++ "__."
  ++ (name_and_ext filename).2.
Proof.
  unfold get_filtered_filename. by destruct (name_and_ext filename).
Qed.

(** C5, as stated, fails: with a hook configured, the filtered name of
    [photo.png] for the key [invert] still carries the raw key. *)
Lemma filtered_name_hook_counterexample :
  Spec.stem_ext "photo.png" "photo" "png" /\
  post_process_image_key hashing_cfg "invert" = "HASH" /\
  get_filtered_filename "photo.png" "invert" = "photo__invert__.png" /\
  get_filtered_filename "photo.png" "invert" <>
  "photo" ++ "__" ++ post_process_image_key hashing_cfg "invert" ++ "__." ++ "png".
Proof.
  split; [right; split; reflexivity|].
  split; [reflexivity|]. split; [reflexivity|]. discriminate.
Qed.

(** C5, amended. The filtered name is [<stem>__<filenameKey>__.<ext>] with
    the raw filename key, whatever hook is configured; this is the name with
    the hook applied when no hook is configured. *)
Theorem filtered_name_template fileName filenameKey :
  exists stem ext,
    Spec.stem_ext fileName stem ext /\
    get_filtered_filename fileName filenameKey =
    stem ++ "__" ++ filenameKey ++ "__." ++ ext /\
    forall cfg,
      VERSATILEIMAGEFIELD_POST_PROCESSOR cfg = None ->
      get_filtered_filename fileName filenameKey =
      stem ++ "__" ++ post_process_image_key cfg filenameKey ++ "__." ++ ext.
Proof.
  exists (name_and_ext fileName).1, (name_and_ext fileName).2.
  split; [apply name_and_ext_spec|].
  split; [apply get_filtered_filename_eq|].
  intros cfg Hcfg. unfold post_process_image_key. rewrite Hcfg.
  apply get_filtered_filename_eq.
Qed.

Lemma filtered_name_template_witness :
  exists stem ext,
    Spec.stem_ext "photo.png" stem ext /\
    get_filtered_filename "photo.png" "invert" =
    stem ++ "__" ++ "invert" ++ "__." ++ ext /\
    get_filtered_filename "photo.png" "invert" =
    stem ++ "__" ++ post_process_image_key plain_cfg "invert" ++ "__." ++ ext.
Proof.
  destruct (filtered_name_template "photo.png" "invert")
    as (stem & ext & H1 & H2 & H3).
  exists stem, ext. split; [exact H1|]. split; [exact H2|].
  apply (H3 plain_cfg). reflexivity.
Defined.

(** C8. The sized path is the join of the sized directory, the containing
    folder and the sized name; the filtered path is the join of the
    containing folder, the filtered directory and the filtered name; the
    returned path is that join with every space removed and all other
    characters kept in order. *)
Theorem path_templates cfg (Storage : Type) (storage : Storage)
    path width height filenameKey :
  let containingFolder := (PosixPath.split path).1 in
  let fileName := (PosixPath.split path).2 in
  let sized :=
    PosixPath.join (VERSATILEIMAGEFIELD_SIZED_DIRNAME cfg)
      [containingFolder; get_resized_filename cfg fileName width height filenameKey] in
  let filtered :=
    PosixPath.join containingFolder
      [VERSATILEIMAGEFIELD_FILTERED_DIRNAME cfg;
       get_filtered_filename fileName filenameKey] in
  let not_space := fun c => negb (Ascii.eqb c " ") in
  list_ascii_of_string (get_resized_path cfg path width height filenameKey storage)
  = List.filter not_space (list_ascii_of_string sized) /\
  list_ascii_of_string (get_filtered_path cfg path filenameKey storage)
  = List.filter not_space (list_ascii_of_string filtered) /\
  PyStr.contains " " (get_resized_path cfg path width height filenameKey storage)
  = false /\
  PyStr.contains " " (get_filtered_path cfg path filenameKey storage) = false.
Proof.
  unfold get_resized_path, get_filtered_path.
  destruct (PosixPath.split path) as [folder name]. simpl.
  repeat split;
    first [apply remove_spaces_filter | apply remove_spaces_no_space].
Qed.

(** C10. The sized and the filtered path do not depend on the storage
    argument, whatever its type. *)
Theorem paths_ignore_storage cfg (S1 S2 : Type) (storage1 : S1) (storage2 : S2)
    path width height filenameKey :
  get_resized_path cfg path width height filenameKey storage1 =
  get_resized_path cfg path width height filenameKey storage2 /\
  get_filtered_path cfg path filenameKey storage1 =
  get_filtered_path cfg path filenameKey storage2.
Proof. split; reflexivity. Qed.

(** ** Stream classification *)

Lemma get_image_metadata_from_file_eq magic_stream file :
  get_image_metadata_from_file magic_stream file =
  (match MIME_TYPE_TO_PIL_IDENTIFIER !! Spec.sniffed_mime (magic_stream file).1 with
   | Some image_format =>
       Ok (image_format, Spec.sniffed_mime (magic_stream file).1)
   | None => Raised (Exn KeyError (PStr (Spec.sniffed_mime (magic_stream file).1)))
   end,
   seek (magic_stream file).2 0).
Proof.
  unfold get_image_metadata_from_file.
  destruct (magic_stream file) as [[|m matches] file']; simpl.
  - by destruct (MIME_TYPE_TO_PIL_IDENTIFIER !! ""); reflexivity.
  - by destruct (MIME_TYPE_TO_PIL_IDENTIFIER !! mime_type m).
Qed.

Lemma empty_mime_unknown : MIME_TYPE_TO_PIL_IDENTIFIER !! "" = None.
Proof. vm_compute. reflexivity. Qed.

(** C7, as stated, fails: for a stream sniffed as [text/plain], which is not
    in the table, the error is the dictionary's [KeyError], not an
    [UnsupportedFormat]. *)
Lemma unknown_mime_counterexample :
  MIME_TYPE_TO_PIL_IDENTIFIER !! "text/plain" = None /\
  exists e,
    (get_image_metadata_from_file sniff_text (FileLike [] 0)).1 = Raised e /\
    class_name (exn_cls e) = "KeyError" /\
    class_name (exn_cls e) <> "UnsupportedFormat".
Proof.
  split; [vm_compute; reflexivity|].
  exists (Exn KeyError (PStr "text/plain")).
  split; [vm_compute; reflexivity|]. split; [reflexivity | discriminate].
Qed.

(** C7, amended. For every stream whose sniffed MIME string is not a key of
    the table, classification fails with the lookup's [KeyError] carrying
    that MIME string, after the stream has been rewound; for a stream with no
    candidates the string looked up is the empty string, which is not in the
    table. *)
Theorem unknown_mime_raises_KeyError magic_stream file :
  let mime := Spec.sniffed_mime (magic_stream file).1 in
  (MIME_TYPE_TO_PIL_IDENTIFIER !! mime = None ->
   get_image_metadata_from_file magic_stream file =
   (Raised (Exn KeyError (PStr mime)), seek (magic_stream file).2 0)) /\
  ((magic_stream file).1 = [] ->
   mime = "" /\
   get_image_metadata_from_file magic_stream file =
   (Raised (Exn KeyError (PStr "")), seek (magic_stream file).2 0)).
Proof.
  intros mime. unfold mime. rewrite get_image_metadata_from_file_eq. split.
  - by intros ->.
  - intros ->. simpl. by rewrite empty_mime_unknown.
Qed.

Lemma unknown_mime_raises_KeyError_witness :
  get_image_metadata_from_file sniff_text (FileLike [] 7) =
  (Raised (Exn KeyError (PStr "text/plain")), FileLike [] 0) /\
  get_image_metadata_from_file (fun f => ([], f)) (FileLike [] 7) =
  (Raised (Exn KeyError (PStr "")), FileLike [] 0).
Proof.
  split.
  - apply (unknown_mime_raises_KeyError sniff_text (FileLike [] 7)).
    vm_compute. reflexivity.
  - apply (unknown_mime_raises_KeyError (fun f => ([], f)) (FileLike [] 7)).
    reflexivity.
Defined.

(** ** URL resolution *)

Section Resolution.

Context {obj : Type} {OM : ObjectModel obj}.

Lemma walk_raised names e :
  fold_left (fun cur name => o ← cur; py_getattr o name) names (Raised e)
  = Raised e.
Proof. induction names as [|n names IH]; simpl; [reflexivity | exact IH]. Qed.

(** [reduce(getattr, ...)] is the left-to-right walk. *)
Lemma reduce_getattr_walk names (root : obj) :
  reduce_getattr names root = Spec.walk names root.
Proof.
  unfold Spec.walk. revert root. induction names as [|n names IH]; intros root.
  - reflexivity.
  - simpl. destruct (py_getattr root n) as [o|e]; simpl.
    + apply IH.
    + by rewrite walk_raised.
Qed.

Lemma walk_app before after (root : obj) :
  Spec.walk (before ++ after) root =
  cur ← Spec.walk before root; Spec.walk after cur.
Proof.
  rewrite <- !reduce_getattr_walk. revert root.
  induction before as [|n before IH]; intros root; simpl.
  - by rewrite reduce_getattr_walk.
  - destruct (py_getattr root n) as [o|e]; simpl; [apply IH | reflexivity].
Qed.

Lemma walk_cons name after (root : obj) :
  Spec.walk (name :: after) root =
  cur ← py_getattr root name; Spec.walk after cur.
Proof.
  rewrite <- reduce_getattr_walk. simpl.
  destruct (py_getattr root name); simpl; [apply reduce_getattr_walk | done].
Qed.


Lemma get_url_from_image_key_eq (root : obj) key :
  get_url_from_image_key root (PStr key) = Spec.ResolveURL root key.
Proof.
  unfold get_url_from_image_key, Spec.ResolveURL, Spec.chain,
    Spec.dimension_token, index_last, pop_last.
  simpl. rewrite last_segment_split. simpl.
  destruct (PyStr.contains "x" (Spec.last_segment key)) eqn:Ex; simpl.
  - rewrite reduce_getattr_walk.
    destruct (Spec.walk _ root) as [final|e]; simpl; [|reflexivity].
    by rewrite (contains_nonempty _ _ Ex).
  - rewrite reduce_getattr_walk.
    by destruct (Spec.walk _ root).
Qed.


End Resolution.

Lemma dimension_token_Some key token :
  Spec.dimension_token key = Some token ->
  token = Spec.last_segment key /\ PyStr.contains "x" token = true /\
  PyStr.split_dunder key = (Spec.chain key ++ [token])%list.
Proof.
  unfold Spec.chain, Spec.dimension_token.
  destruct (PyStr.contains "x" (Spec.last_segment key)) eqn:E; [|discriminate].
  intros [= <-]. repeat split; [exact E | apply split_dunder_snoc].
Qed.

Lemma dimension_token_None key :
  Spec.dimension_token key = None ->
  PyStr.contains "x" (Spec.last_segment key) = false /\
  Spec.chain key = PyStr.split_dunder key.
Proof.
  unfold Spec.chain, Spec.dimension_token.
  destruct (PyStr.contains "x" (Spec.last_segment key)) eqn:E; [discriminate|].
  by intros _.
Qed.

(** C1. The key is split on the double underscore; a last segment that
    contains [x] is popped as the dimension token, otherwise no token is
    taken; the remaining segments are looked up as attributes, left to right
    from the root; with a token the result is the [url] of the keyed entry of
    the final object, without one it is the final value. For a root whose
    [crop] capability has the keyed entry [400x400] with a URL, the key
    [crop__400x400] resolves to that URL. *)
Theorem resolve_url_algorithm :
  (forall (obj : Type) (OM : ObjectModel obj) (root : obj) (sizeKey : string),
     get_url_from_image_key root (PStr sizeKey) = Spec.ResolveURL root sizeKey /\
     (forall token,
        Spec.dimension_token sizeKey = Some token ->
        PyStr.contains "x" token = true /\
        PyStr.split_dunder sizeKey = (Spec.chain sizeKey ++ [token])%list /\
        get_url_from_image_key root (PStr sizeKey) =
        (final ← Spec.walk (Spec.chain sizeKey) root;
         entry ← py_getitem final token;
         py_getattr entry "url")) /\
     (Spec.dimension_token sizeKey = None ->
      PyStr.contains "x" (Spec.last_segment sizeKey) = false /\
      get_url_from_image_key root (PStr sizeKey) =
      Spec.walk (PyStr.split_dunder sizeKey) root)) /\
  (forall (obj : Type) (OM : ObjectModel obj) (root crop entry url : obj),
     py_getattr root "crop" = Ok crop ->
     py_getitem crop "400x400" = Ok entry ->
     py_getattr entry "url" = Ok url ->
     get_url_from_image_key root (PStr "crop__400x400") = Ok url).
Proof.
  split.
  - intros obj OM root sizeKey. rewrite get_url_from_image_key_eq.
    split; [reflexivity|]. split.
    + intros token Ht. destruct (dimension_token_Some _ _ Ht) as (_ & Hx & Hs).
      split; [exact Hx|]. split; [exact Hs|].
      unfold Spec.ResolveURL. by rewrite Ht.
    + intros Ht. destruct (dimension_token_None _ Ht) as [Hx Hc].
      split; [exact Hx|]. unfold Spec.ResolveURL. rewrite Ht, Hc.
      by destruct (Spec.walk _ root).
  - intros obj OM root crop entry url Hc He Hu.
    rewrite get_url_from_image_key_eq. unfold Spec.ResolveURL.
    change (Spec.chain "crop__400x400") with ["crop"].
    change (Spec.dimension_token "crop__400x400") with (Some "400x400").
    rewrite walk_cons, Hc. simpl. rewrite He. simpl. exact Hu.
Qed.

Lemma resolve_url_algorithm_witness :
  get_url_from_image_key example_root (PStr "crop__400x400")
  = Ok (OStr "http://x/y.jpg").
Proof.
  apply (proj2 resolve_url_algorithm pyobj pyobj_model example_root
           (OObj true [] [("400x400", OObj true [("url", OStr "http://x/y.jpg")] [])])
           (OObj true [("url", OStr "http://x/y.jpg")] [])
           (OStr "http://x/y.jpg")); reflexivity.
Defined.


Lemma assoc_elem {V} (l : list (string * V)) k v : assoc l k = Some v -> (k, v) ∈ l.
Proof.
  induction l as [|[k' v'] l IH]; simpl; [discriminate|].
  destruct (String.eqb_spec k' k) as [->|Hne].
  - intros [= ->]. apply list_elem_of_here.
  - intros H. apply list_elem_of_further, IH, H.
Qed.




Lemma string_app_length (a b : string) :
  String.length (a ++ b) = String.length a + String.length b.
Proof. induction a as [|x a IH]; simpl; [reflexivity | by rewrite IH]. Qed.






(** ** Validation of size-key collections *)

Section Validation.

Context {SO : SetOrder}.

Lemma check_size_key_str k :
  check_size_key (PStr k) =
  if Spec.size_key_ok k then Ok tt else raise InvalidSizeKey (PStr k).
Proof.
  unfold check_size_key, Spec.size_key_ok, index_last. simpl.
  rewrite last_segment_split. simpl.
  destruct (String.eqb_spec (Spec.last_segment k) "url") as [E|E]; simpl.
  - by rewrite bool_decide_eq_true_2.
  - rewrite bool_decide_eq_false_2 by done. simpl.
    by destruct (PyStr.contains "x" (Spec.last_segment k)).
Qed.

Lemma check_size_key_not_ValueError k v :
  check_size_key k <> raise ValueError v.
Proof.
  destruct k as [| |s| |]; try discriminate.
  rewrite check_size_key_str. by destruct (Spec.size_key_ok s).
Qed.

(** What one element does to the loop: a good pair lets it go on. *)
Lemma good_pair_step elem rest :
  Spec.good_pair elem = true ->
  validate_loop (elem :: rest) = validate_loop rest.
Proof.
  unfold Spec.good_pair. simpl.
  destruct (unpack2 elem) as [[l k]|e]; [|discriminate].
  destruct k as [| |s| |]; try discriminate.
  intros Hk. simpl. by rewrite check_size_key_str, Hk.
Qed.

Lemma validate_loop_skip pre rest :
  forallb Spec.good_pair pre = true ->
  validate_loop (pre ++ rest) = validate_loop rest.
Proof.
  induction pre as [|e pre IH]; [reflexivity|].
  intros [He Hpre]%andb_true_iff.
  rewrite <- app_comm_cons, good_pair_step by done. by apply IH.
Qed.

(** The loop finishes exactly on the collections of good pairs. *)
Lemma validate_loop_Ok sizes u :
  validate_loop sizes = Ok u <-> forallb Spec.good_pair sizes = true.
Proof.
  destruct u. induction sizes as [|e sizes IH]; [done|].
  change (forallb Spec.good_pair (e :: sizes))
    with (Spec.good_pair e && forallb Spec.good_pair sizes).
  destruct (Spec.good_pair e) eqn:He.
  - by rewrite good_pair_step.
  - simpl. split; [|discriminate]. unfold Spec.good_pair in He.
    destruct (unpack2 e) as [[l k]|err]; simpl; [|discriminate].
    destruct k as [| |s| |]; try discriminate.
    rewrite check_size_key_str, He. discriminate.
Qed.

(** A loop that raises does so at the first element that is not a good
    pair, with the error of unpacking it or of checking its key. *)
Lemma validate_loop_Raised sizes err :
  validate_loop sizes = Raised err <->
  exists pre e post,
    sizes = (pre ++ e :: post)%list /\
    forallb Spec.good_pair pre = true /\
    (unpack2 e = Raised err \/
     exists p, unpack2 e = Ok p /\ check_size_key p.2 = Raised err).
Proof.
  split.
  - induction sizes as [|e sizes IH]; [discriminate|].
    destruct (Spec.good_pair e) eqn:He.
    + rewrite good_pair_step by done. intros H.
      destruct (IH H) as (pre & e' & post & -> & Hpre & Herr).
      exists (e :: pre), e', post. split; [reflexivity|].
      split; [|exact Herr]. simpl. by rewrite He.
    + intros H. exists [], e, sizes. split; [reflexivity|].
      split; [reflexivity|]. simpl in H.
      destruct (unpack2 e) as [p|err'] eqn:Eu; simpl in H.
      * right. exists p. split; [reflexivity|].
        destruct (check_size_key p.2) as [[]|err'] eqn:Ec; simpl in H.
        -- exfalso. unfold Spec.good_pair in He. rewrite Eu in He.
           destruct p as [l [| |s| |]]; simpl in Ec; try discriminate.
           rewrite check_size_key_str in Ec. rewrite He in Ec. discriminate.
        -- congruence.
      * left. congruence.
  - intros (pre & e & post & -> & Hpre & Herr).
    rewrite validate_loop_skip by done. simpl.
    destruct Herr as [-> | (p & -> & Hc)]; [reflexivity|].
    simpl. by rewrite Hc.
Qed.

Lemma py_list_set_Ok sizes out :
  py_list_set sizes = Ok out <->
  forallb hashable sizes = true /\ out = set_list sizes.
Proof.
  unfold py_list_set.
  destruct (List.find (fun v => negb (hashable v)) sizes) as [v|] eqn:E.
  - split; [discriminate|]. intros [H _].
    apply find_some in E as [Hin Hv]. rewrite forallb_forall in H.
    apply H in Hin. rewrite Hin in Hv. discriminate.
  - split.
    + intros [= <-]. split; [|reflexivity]. apply forallb_forall.
      intros x Hx. pose proof (find_none _ _ E x Hx) as Hn.
      simpl in Hn. by destruct (hashable x).
    + by intros [_ ->].
Qed.

Lemma py_list_set_Raised sizes err :
  py_list_set sizes = Raised err -> exn_cls err = TypeError.
Proof.
  unfold py_list_set. destruct (List.find _ sizes); [|discriminate].
  by intros [= <-].
Qed.

Lemma validate_Ok sizes out :
  validate_versatileimagefield_sizekey_list sizes = Ok out <->
  forallb Spec.good_pair sizes = true /\
  forallb hashable sizes = true /\
  out = set_list sizes.
Proof.
  unfold validate_versatileimagefield_sizekey_list.
  destruct (validate_loop sizes) as [[]|err] eqn:E.
  - rewrite py_list_set_Ok. apply validate_loop_Ok in E. tauto.
  - assert (forallb Spec.good_pair sizes <> true) as Hn.
    { intros H. apply (validate_loop_Ok sizes tt) in H. congruence. }
    destruct err as [[] v]; (split; [discriminate | tauto]).
Qed.

Lemma unpack2_raises e err :
  unpack2 e = Raised err -> exn_cls err = ValueError \/ exn_cls err = TypeError.
Proof.
  destruct e as [| |s|l|l]; simpl.
  - intros [= <-]. by right.
  - intros [= <-]. by right.
  - destruct s as [|a [|b [|c s]]]; try discriminate; intros [= <-]; by left.
  - destruct l as [|a [|b [|c l]]]; try discriminate; intros [= <-]; by left.
  - destruct l as [|a [|b [|c l]]]; try discriminate; intros [= <-]; by left.
Qed.

Lemma check_size_key_raises k err :
  check_size_key k = Raised err ->
  exn_cls err = AttributeError \/ exn_cls err = InvalidSizeKey.
Proof.
  destruct k as [| |s| |]; try (intros [= <-]; by left).
  rewrite check_size_key_str. destruct (Spec.size_key_ok s); [discriminate|].
  intros [= <-]. by right.
Qed.

(** The loop itself never raises [InvalidSizeKeySet]. *)
Lemma validate_loop_raises sizes err :
  validate_loop sizes = Raised err -> exn_cls err <> InvalidSizeKeySet.
Proof.
  intros (pre & e & post & _ & _ & [Hu | (p & _ & Hc)])%validate_loop_Raised.
  - apply unpack2_raises in Hu as [-> | ->]; discriminate.
  - apply check_size_key_raises in Hc as [-> | ->]; discriminate.
Qed.

Lemma validate_InvalidSizeKeySet sizes v :
  validate_versatileimagefield_sizekey_list sizes = raise InvalidSizeKeySet v <->
  v = PList sizes /\
  exists pre e post,
    sizes = (pre ++ e :: post)%list /\
    forallb Spec.good_pair pre = true /\
    Spec.bad_shape e = true.
Proof.
  unfold validate_versatileimagefield_sizekey_list, raise. split.
  - destruct (validate_loop sizes) as [[]|err] eqn:E.
    + intros H. apply py_list_set_Raised in H. discriminate.
    + pose proof (validate_loop_raises _ _ E) as Hcls.
      destruct err as [c w]. simpl in Hcls.
      destruct c; try discriminate; [|tauto].
      intros [= <-]. split; [reflexivity|].
      apply validate_loop_Raised in E as (pre & e & post & -> & Hpre & Herr).
      exists pre, e, post. split; [reflexivity|]. split; [exact Hpre|].
      unfold Spec.bad_shape. destruct Herr as [-> | (p & _ & Hc)]; [reflexivity|].
      by apply check_size_key_not_ValueError in Hc.
  - intros (-> & pre & e & post & -> & Hpre & He).
    unfold Spec.bad_shape in He.
    destruct (unpack2 e) as [p|[c w]] eqn:Eu; [discriminate|].
    destruct c; try discriminate.
    assert (validate_loop (pre ++ e :: post) = Raised (Exn ValueError w)) as ->.
    { apply validate_loop_Raised. exists pre, e, post. by repeat split; auto. }
    reflexivity.
Qed.

Lemma validate_InvalidSizeKey sizes v :
  validate_versatileimagefield_sizekey_list sizes = raise InvalidSizeKey v <->
  exists k pre e post,
    v = PStr k /\
    sizes = (pre ++ e :: post)%list /\
    forallb Spec.good_pair pre = true /\
    Spec.bad_key e k.
Proof.
  unfold validate_versatileimagefield_sizekey_list, raise. split.
  - destruct (validate_loop sizes) as [[]|err] eqn:E.
    + intros H. apply py_list_set_Raised in H. discriminate.
    + destruct err as [c w]. destruct c; try discriminate.
      intros [= <-].
      apply validate_loop_Raised in E as (pre & e & post & -> & Hpre & Herr).
      destruct Herr as [Hu | ([l k] & Hu & Hc)].
      * apply unpack2_raises in Hu. simpl in Hu. destruct Hu; discriminate.
      * destruct k as [| |s| |]; try discriminate. simpl in Hc.
        rewrite check_size_key_str in Hc.
        destruct (Spec.size_key_ok s) eqn:Hs; [discriminate|].
        injection Hc as <-. exists s, pre, e, post.
        repeat split; auto. by exists l.
  - intros (k & pre & e & post & -> & -> & Hpre & l & Hu & Hk).
    assert (validate_loop (pre ++ e :: post) = Raised (Exn InvalidSizeKey (PStr k)))
      as ->; [|reflexivity].
    apply validate_loop_Raised. exists pre, e, post.
    split; [reflexivity|]. split; [exact Hpre|]. right.
    exists (l, PStr k). split; [exact Hu|]. simpl.
    by rewrite check_size_key_str, Hk.
Qed.

Lemma set_list_constant l v :
  v ∈ l -> (forall x, x ∈ l -> x = v) -> set_list l = [v].
Proof.
  intros Hv Hall.
  pose proof (set_list_NoDup l) as Hnd.
  pose proof (set_list_elem l) as Hel.
  destruct (set_list l) as [|a [|b t]].
  - apply Hel in Hv. by apply elem_of_nil in Hv.
  - f_equal. apply Hall, Hel, list_elem_of_here.
  - assert (a = v) as -> by apply Hall, Hel, list_elem_of_here.
    assert (b = v) as ->
      by apply Hall, Hel, list_elem_of_further, list_elem_of_here.
    apply NoDup_cons in Hnd as [Hn _]. destruct Hn. apply list_elem_of_here.
Qed.

Lemma set_list_singleton v : set_list [v] = [v].
Proof.
  apply set_list_constant; [apply list_elem_of_here|].
  by intros x ?%list_elem_of_singleton.
Qed.

Lemma set_list_twice v : set_list [v; v] = [v].
Proof.
  apply set_list_constant; [apply list_elem_of_here|].
  intros x. rewrite !elem_of_cons, elem_of_nil. tauto.
Qed.

Lemma set_list_Permutation l : set_list (set_list l) ≡ₚ set_list l.
Proof.
  apply NoDup_Permutation; [apply set_list_NoDup .. |].
  intros x. apply set_list_elem.
Qed.

Lemma good_pair_val p :
  Spec.good_pair (Spec.pair_val p) = Spec.size_key_ok p.2.
Proof. reflexivity. Qed.

Lemma hashable_pair_val p : hashable (Spec.pair_val p) = true.
Proof. reflexivity. Qed.

End Validation.

(** C2, as stated, fails. An element that cannot be unpacked does not make
    validation fail with [InvalidSizeKeySet] when a pair with an invalid key
    comes before it: the loop stops at the first offending element. And a
    collection whose only pair unpacks and has a valid key is still rejected
    when the pair is not hashable. *)
Lemma validation_contract_counterexample :
  (PTuple [PStr "b"] ∈ mixed_sizes /\
   Spec.bad_shape (PTuple [PStr "b"]) = true /\
   validate_versatileimagefield_sizekey_list mixed_sizes
   = raise InvalidSizeKey (PStr "crop_400_400") /\
   validate_versatileimagefield_sizekey_list mixed_sizes
   <> raise InvalidSizeKeySet (PList mixed_sizes)) /\
  (forallb Spec.good_pair list_pair_sizes = true /\
   validate_versatileimagefield_sizekey_list list_pair_sizes
   = raise TypeError (PList [PStr "large"; PStr "url"])).
Proof.
  split.
  - split; [apply list_elem_of_further, list_elem_of_here|].
    split; [reflexivity|]. split; [reflexivity | discriminate].
  - split; reflexivity.
Qed.

Lemma validate_single_pair {SO : SetOrder} label k :
  Spec.size_key_ok k = true ->
  validate_versatileimagefield_sizekey_list [Spec.pair_val (label, k)]
  = Ok [Spec.pair_val (label, k)].
Proof.
  intros Hk. apply validate_Ok. split; [|split].
  - change (Spec.size_key_ok k && true = true). by rewrite Hk.
  - reflexivity.
  - by rewrite set_list_singleton.
Qed.

(** C2, amended. Validation stops at the first element, in iteration order,
    that is not a pair with a valid key. It fails with [InvalidSizeKeySet]
    (naming the whole input) exactly when that element is a sequence that
    does not have two items, and with [InvalidSizeKey] (naming the key)
    exactly when it is a pair whose key is a string with a last segment that
    is neither [url] nor contains [x]. It succeeds exactly when every element
    is a hashable pair with such a valid key, and then returns the distinct
    elements. The keys [crop__400x400], [filters__invert__url] and [url]
    validate; [crop_400_400] fails with [InvalidSizeKey]. *)
Theorem validation_contract :
  (forall (SO : SetOrder) (sizes : list pyval),
     (validate_versatileimagefield_sizekey_list sizes
      = raise InvalidSizeKeySet (PList sizes) <->
      exists pre e post,
        sizes = (pre ++ e :: post)%list /\
        forallb Spec.good_pair pre = true /\
        Spec.bad_shape e = true) /\
     (forall k,
        validate_versatileimagefield_sizekey_list sizes
        = raise InvalidSizeKey (PStr k) <->
        exists pre e post,
          sizes = (pre ++ e :: post)%list /\
          forallb Spec.good_pair pre = true /\
          Spec.bad_key e k) /\
     (forall out,
        validate_versatileimagefield_sizekey_list sizes = Ok out <->
        forallb Spec.good_pair sizes = true /\
        forallb hashable sizes = true /\
        out = set_list sizes)) /\
  (forall (SO : SetOrder) (label : string),
     validate_versatileimagefield_sizekey_list
       [Spec.pair_val (label, "crop__400x400")]
     = Ok [Spec.pair_val (label, "crop__400x400")] /\
     validate_versatileimagefield_sizekey_list
       [Spec.pair_val (label, "filters__invert__url")]
     = Ok [Spec.pair_val (label, "filters__invert__url")] /\
     validate_versatileimagefield_sizekey_list [Spec.pair_val (label, "url")]
     = Ok [Spec.pair_val (label, "url")] /\
     validate_versatileimagefield_sizekey_list
       [Spec.pair_val (label, "crop_400_400")]
     = raise InvalidSizeKey (PStr "crop_400_400")).
Proof.
  split.
  - intros SO sizes. split; [|split].
    + rewrite validate_InvalidSizeKeySet. split; [tauto|]. by intros H.
    + intros k. rewrite validate_InvalidSizeKey. split.
      * intros (k' & pre & e & post & [= <-] & H). by exists pre, e, post.
      * intros (pre & e & post & H). by exists k, pre, e, post.
    + apply validate_Ok.
  - intros SO label.
    split; [by apply validate_single_pair|].
    split; [by apply validate_single_pair|].
    split; [by apply validate_single_pair|].
    reflexivity.
Qed.

Lemma validation_contract_witness :
  validate_versatileimagefield_sizekey_list mixed_sizes
  = raise InvalidSizeKey (PStr "crop_400_400") /\
  validate_versatileimagefield_sizekey_list
    [PTuple [PStr "a"; PStr "url"]; PTuple [PStr "b"]; PTuple [PStr "c"; PStr "bad"]]
  = raise InvalidSizeKeySet
      (PList [PTuple [PStr "a"; PStr "url"]; PTuple [PStr "b"];
              PTuple [PStr "c"; PStr "bad"]]).
Proof.
  split.
  - apply (proj1 validation_contract first_seen_order mixed_sizes).
    exists [], (PTuple [PStr "a"; PStr "crop_400_400"]), [PTuple [PStr "b"]].
    split; [reflexivity|]. split; [reflexivity|].
    exists (PStr "a"). split; reflexivity.
  - apply (proj1 validation_contract first_seen_order).
    exists [PTuple [PStr "a"; PStr "url"]], (PTuple [PStr "b"]),
      [PTuple [PStr "c"; PStr "bad"]].
    split; [reflexivity|]. split; reflexivity.
Defined.

(** C4. For a collection of valid pairs, validation succeeds, its output
    has no repetition and holds exactly the input pairs, and validating the
    output again gives the same pairs up to order; a pair given twice
    validates to the same result as the pair given once; and the order of
    the output is not fixed. *)
Theorem validation_idempotent_dedup :
  (forall (SO : SetOrder) (S : list (string * string)),
     Forall (fun p => Spec.size_key_ok p.2 = true) S ->
     exists out,
       validate_versatileimagefield_sizekey_list (Spec.pair_val <$> S) = Ok out /\
       NoDup out /\
       (forall v, v ∈ out <-> v ∈ Spec.pair_val <$> S) /\
       exists out2,
         validate_versatileimagefield_sizekey_list out = Ok out2 /\
         out2 ≡ₚ out) /\
  (forall (SO : SetOrder) (l k : string),
     Spec.size_key_ok k = true ->
     exists out,
       validate_versatileimagefield_sizekey_list
         [Spec.pair_val (l, k); Spec.pair_val (l, k)] = Ok out /\
       validate_versatileimagefield_sizekey_list [Spec.pair_val (l, k)] = Ok out /\
       out = [Spec.pair_val (l, k)]) /\
  (exists out1 out2,
     @validate_versatileimagefield_sizekey_list first_seen_order
       (Spec.pair_val <$> two_pairs) = Ok out1 /\
     @validate_versatileimagefield_sizekey_list last_seen_order
       (Spec.pair_val <$> two_pairs) = Ok out2 /\
     out1 ≡ₚ out2 /\ out1 <> out2).
Proof.
  split; [|split].
  - intros SO S HS.
    assert (forallb Spec.good_pair (Spec.pair_val <$> S) = true) as Hgood.
    { apply forallb_forall. intros v Hv. apply list_elem_of_In in Hv.
      apply list_elem_of_fmap in Hv as (p & -> & Hp).
      rewrite good_pair_val. by apply (proj1 (Forall_forall _ _) HS). }
    assert (forallb hashable (Spec.pair_val <$> S) = true) as Hhash.
    { apply forallb_forall. intros v Hv. apply list_elem_of_In in Hv.
      by apply list_elem_of_fmap in Hv as (p & -> & Hp). }
    exists (set_list (Spec.pair_val <$> S)).
    split; [by apply validate_Ok|]. split; [apply set_list_NoDup|].
    split; [intros v; apply set_list_elem|].
    exists (set_list (set_list (Spec.pair_val <$> S))).
    split; [|apply set_list_Permutation].
    apply validate_Ok. split; [|split; [|reflexivity]].
    + apply forallb_forall. intros v Hv.
      apply list_elem_of_In, (proj1 (set_list_elem _ _)), list_elem_of_In in Hv.
      by apply (proj1 (forallb_forall _ _) Hgood).
    + apply forallb_forall. intros v Hv.
      apply list_elem_of_In, (proj1 (set_list_elem _ _)), list_elem_of_In in Hv.
      by apply (proj1 (forallb_forall _ _) Hhash).
  - intros SO l k Hk. exists [Spec.pair_val (l, k)].
    split; [|split; [by apply validate_single_pair | reflexivity]].
    apply validate_Ok. split; [|split].
    + change (Spec.size_key_ok k && (Spec.size_key_ok k && true) = true).
      by rewrite Hk.
    + reflexivity.
    + by rewrite set_list_twice.
  - eexists _, _. split; [vm_compute; reflexivity|].
    split; [vm_compute; reflexivity|]. split; [apply Permutation_swap|].
    discriminate.
Qed.

(** ** The result dictionary *)

Section Dict.

Context {V : Type}.
Implicit Types (d : list (pyval * V)) (k : pyval) (v : V).

Lemma dict_get_set_eq d k v : dict_get (dict_set d k v) k = Some v.
Proof.
  induction d as [|[k' v'] d IH]; simpl.
  - by rewrite pyval_eqb_refl.
  - destruct (pyval_eqb k' k) eqn:E; simpl; by rewrite E.
Qed.

Lemma dict_get_set_ne d k k' v :
  k <> k' -> dict_get (dict_set d k v) k' = dict_get d k'.
Proof.
  intros Hne. induction d as [|[k0 v0] d IH]; simpl.
  - by rewrite (proj2 (pyval_eqb_neq k k')).
  - destruct (pyval_eqb k0 k) eqn:E; simpl.
    + apply pyval_eqb_spec in E as ->.
      by rewrite (proj2 (pyval_eqb_neq k k')).
    + by rewrite IH.
Qed.

Lemma dict_keys_set d k v k' :
  k' ∈ (dict_set d k v).*1 <-> k' = k \/ k' ∈ d.*1.
Proof.
  induction d as [|[k0 v0] d IH]; simpl.
  - rewrite list_elem_of_singleton, elem_of_nil. tauto.
  - destruct (pyval_eqb k0 k) eqn:E; simpl.
    + apply pyval_eqb_spec in E as ->. rewrite elem_of_cons. tauto.
    + rewrite !elem_of_cons, IH. tauto.
Qed.

Lemma dict_keys_NoDup d k v : NoDup d.*1 -> NoDup (dict_set d k v).*1.
Proof.
  induction d as [|[k0 v0] d IH]; simpl; intros Hnd.
  - apply NoDup_singleton.
  - destruct (pyval_eqb k0 k) eqn:E; simpl; [exact Hnd|].
    apply NoDup_cons in Hnd as [Hk0 Hnd]. apply NoDup_cons.
    split; [|by apply IH]. rewrite dict_keys_set.
    apply pyval_eqb_neq in E. tauto.
Qed.

Lemma dict_get_is_Some d k : is_Some (dict_get d k) <-> k ∈ d.*1.
Proof.
  induction d as [|[k0 v0] d IH]; simpl.
  - rewrite elem_of_nil. split; [by intros [? ?] | tauto].
  - destruct (pyval_eqb k0 k) eqn:E.
    + apply pyval_eqb_spec in E as ->. rewrite elem_of_cons.
      split; [tauto | by eexists].
    + apply pyval_eqb_neq in E. rewrite elem_of_cons, IH.
      split; [tauto | intros [->|H]; [done | exact H]].
Qed.

Lemma dict_set_length_new d k v :
  k ∉ d.*1 -> length (dict_set d k v) = S (length d).
Proof.
  induction d as [|[k0 v0] d IH]; simpl; [reflexivity|].
  rewrite elem_of_cons. intros Hn.
  destruct (pyval_eqb k0 k) eqn:E.
  - apply pyval_eqb_spec in E as ->. tauto.
  - simpl. rewrite IH; tauto.
Qed.

End Dict.

(** ** The URL set *)

Lemma good_pair_unpack e :
  Spec.good_pair e = true ->
  exists k, unpack2 e = Ok (Spec.label_of e, PStr k) /\ Spec.key_of e = PStr k.
Proof.
  unfold Spec.good_pair, Spec.label_of, Spec.key_of.
  destruct (unpack2 e) as [[l k]|err]; [|discriminate].
  destruct k as [| |s| |]; try discriminate. intros _. by exists s.
Qed.

Lemma good_pair_label_hashable e :
  Spec.good_pair e = true -> hashable e = true ->
  hashable (Spec.label_of e) = true.
Proof.
  unfold Spec.good_pair, Spec.label_of. destruct e as [| |s|l|l]; try discriminate.
  - destruct s as [|a [|b [|c s]]]; try discriminate. reflexivity.
  - destruct l as [|a [|b [|c l]]]; try discriminate. simpl.
    intros _ H. by apply andb_true_iff in H as [-> _].
Qed.

Section URLSet.

Context {SO : SetOrder} {obj : Type} {OM : ObjectModel obj}.
Implicit Types (img : obj) (request : option (request_t obj))
  (d m : list (pyval * obj)).

Lemma has_image_or_placeholder_false img :
  Spec.no_image_no_placeholder img -> has_image_or_placeholder img = Ok false.
Proof.
  intros (Hb & field & ph & Hf & Hp & Hpb). unfold has_image_or_placeholder.
  rewrite Hb, Hf. simpl. rewrite Hp. simpl. by rewrite Hpb.
Qed.

Lemma has_image_or_placeholder_true img :
  Spec.image_or_placeholder img -> has_image_or_placeholder img = Ok true.
Proof.
  unfold has_image_or_placeholder.
  intros [Hb | (field & ph & Hf & Hp & Hpb)].
  - by rewrite Hb.
  - destruct (py_bool img); [reflexivity|].
    rewrite Hf. simpl. rewrite Hp. simpl. by rewrite Hpb.
Qed.

(** One iteration of the loop on a good, hashable pair whose key resolves. *)
Lemma build_loop_step img request e rest d u :
  Spec.good_pair e = true -> hashable e = true ->
  get_url_from_image_key img (Spec.key_of e) = Ok u ->
  build_loop img request (e :: rest) d =
  build_loop img request rest
    (dict_set d (Spec.label_of e) (Spec.rewritten request u)).
Proof.
  intros Hg Hh Hu. destruct (good_pair_unpack e Hg) as (k & Hun & Hk).
  simpl. rewrite Hun. simpl. rewrite <- Hk, Hu. simpl.
  unfold py_dict_set. rewrite (good_pair_label_hashable e Hg Hh). simpl.
  by destruct request.
Qed.

Lemma build_loop_spec img request vs :
  forallb Spec.good_pair vs = true ->
  forallb hashable vs = true ->
  (forall e, e ∈ vs -> exists u, get_url_from_image_key img (Spec.key_of e) = Ok u) ->
  forall d,
    NoDup d.*1 ->
    exists m,
      build_loop img request vs d = Ok m /\
      NoDup m.*1 /\
      (forall l, l ∈ m.*1 <->
                 l ∈ d.*1 \/ exists e, e ∈ vs /\ Spec.label_of e = l) /\
      (forall l v,
         dict_get m l = Some v ->
         dict_get d l = Some v \/
         exists e u,
           e ∈ vs /\ Spec.label_of e = l /\
           get_url_from_image_key img (Spec.key_of e) = Ok u /\
           v = Spec.rewritten request u) /\
      (forall l, l ∉ Spec.label_of <$> vs -> dict_get m l = dict_get d l) /\
      (NoDup (Spec.label_of <$> vs) ->
       (forall e, e ∈ vs -> Spec.label_of e ∉ d.*1) ->
       length m = length d + length vs /\
       forall e u,
         e ∈ vs ->
         get_url_from_image_key img (Spec.key_of e) = Ok u ->
         dict_get m (Spec.label_of e) = Some (Spec.rewritten request u)).
Proof.
  induction vs as [|e vs IH]; intros Hgood Hhash Hres d Hd.
  - exists d. split; [reflexivity|]. split; [exact Hd|].
    split; [intros l; rewrite ?elem_of_nil; split; [tauto|];
            intros [H|(e & He & _)]; [exact H | by apply elem_of_nil in He]|].
    split; [tauto|]. split; [done|]. intros _ _. split; [simpl; lia|].
    intros e u He. by apply elem_of_nil in He.
  - simpl in Hgood, Hhash.
    apply andb_true_iff in Hgood as [Hg Hgood].
    apply andb_true_iff in Hhash as [Hh Hhash].
    destruct (Hres e (list_elem_of_here _ _)) as [u Hu].
    rewrite (build_loop_step _ _ _ _ _ _ Hg Hh Hu).
    set (d1 := dict_set d (Spec.label_of e) (Spec.rewritten request u)).
    destruct (IH Hgood Hhash (fun e' He' => Hres e' (list_elem_of_further _ _ _ He'))
                d1 (dict_keys_NoDup _ _ _ Hd))
      as (m & Hm & Hnd & Hkeys & Hvals & Hkeep & Hdistinct).
    exists m. split; [exact Hm|]. split; [exact Hnd|]. split; [|split; [|split]].
    + intros l. rewrite Hkeys. unfold d1. rewrite dict_keys_set. split.
      * intros [[->|H] | (e' & He' & Hl)]; [right | by left | right].
        -- exists e. split; [apply list_elem_of_here | reflexivity].
        -- exists e'. split; [by apply list_elem_of_further | exact Hl].
      * intros [H | (e' & He' & Hl)]; [tauto|].
        apply elem_of_cons in He' as [->|He']; [left; by left|].
        right. by exists e'.
    + intros l v Hv. destruct (Hvals l v Hv) as [Hd1 | (e' & u' & He' & Hl & Hu' & ->)].
      * unfold d1 in Hd1. destruct (decide (Spec.label_of e = l)) as [<-|Hne].
        -- rewrite dict_get_set_eq in Hd1. injection Hd1 as <-.
           right. exists e, u. split; [apply list_elem_of_here | done].
        -- rewrite dict_get_set_ne in Hd1 by done. by left.
      * right. exists e', u'. split; [by apply list_elem_of_further | done].
    + intros l Hl. rewrite fmap_cons, not_elem_of_cons in Hl.
      destruct Hl as [Hne Hl]. rewrite (Hkeep l Hl). unfold d1.
      by rewrite dict_get_set_ne.
    + intros Hlab Hfresh. rewrite fmap_cons in Hlab.
      apply NoDup_cons in Hlab as [Hnew Hlab].
      assert (Spec.label_of e ∉ d.*1) as Hed
        by apply Hfresh, list_elem_of_here.
      destruct Hdistinct as [Hlen Hget]; [exact Hlab | |].
      { intros e' He'. unfold d1. rewrite dict_keys_set. intros [Heq | Hin].
        - apply Hnew. rewrite <- Heq. by apply list_elem_of_fmap_2.
        - by apply (Hfresh e' (list_elem_of_further _ _ _ He')). }
      split.
      * rewrite Hlen. unfold d1. rewrite dict_set_length_new by done. simpl. lia.
      * intros e' u' He' Hu'. apply elem_of_cons in He' as [->|He'].
        -- rewrite (Hkeep _ Hnew). unfold d1. rewrite dict_get_set_eq.
           congruence.
        -- by apply Hget.
Qed.

Lemma validate_output sizes vs :
  validate_versatileimagefield_sizekey_list sizes = Ok vs ->
  forallb Spec.good_pair vs = true /\ forallb hashable vs = true /\ NoDup vs /\
  forall e, e ∈ vs <-> e ∈ sizes.
Proof.
  intros (Hg & Hh & ->)%validate_Ok.
  split; [|split; [|split; [apply set_list_NoDup | intros; apply set_list_elem]]].
  - apply forallb_forall. intros v Hv.
    apply list_elem_of_In, (proj1 (set_list_elem _ _)), list_elem_of_In in Hv.
    by apply (proj1 (forallb_forall _ _) Hg).
  - apply forallb_forall. intros v Hv.
    apply list_elem_of_In, (proj1 (set_list_elem _ _)), list_elem_of_In in Hv.
    by apply (proj1 (forallb_forall _ _) Hh).
Qed.

End URLSet.

(** C9, as stated, fails: two distinct pairs with one label give a mapping
    with a single entry, not one entry per pair; and a valid key that does
    not resolve gives no mapping at all, the lookup error propagates. *)
Lemma url_set_counterexample :
  (validate_versatileimagefield_sizekey_list clashing_sizes = Ok clashing_sizes /\
   NoDup clashing_sizes /\
   Spec.image_or_placeholder example_image /\
   build_versatileimagefield_url_set example_image clashing_sizes None
   = Ok [(PStr "a", OStr "http://x/y.jpg")] /\
   ~ Spec.one_entry_per_pair example_image None clashing_sizes
       [(PStr "a", OStr "http://x/y.jpg")]) /\
  (validate_versatileimagefield_sizekey_list unresolved_sizes
   = Ok unresolved_sizes /\
   build_versatileimagefield_url_set example_image unresolved_sizes None
   = raise AttributeError (PStr "thumbnail")).
Proof.
  split; [|split; reflexivity].
  split; [reflexivity|].
  split; [apply NoDup_cons; split; [|apply NoDup_singleton];
          by intros [=]%list_elem_of_singleton|].
  split; [by left|]. split; [reflexivity|]. by intros [Hlen _].
Qed.

(** Which of the clashing pairs wins depends on the enumeration order. *)
Lemma url_set_clash_order :
  @build_versatileimagefield_url_set last_seen_order _ _
    example_image clashing_sizes None
  = Ok [(PStr "a", OStr "http://x/o.jpg")].
Proof. reflexivity. Qed.

(** C9, amended. For a valid collection: when the image instance is falsy
    and its field has no placeholder image the result is the empty mapping,
    whether or not the keys would resolve; otherwise, when every key
    resolves, the result is a mapping with exactly one entry per distinct
    label of the validated pairs, each label mapped to the resolved (and,
    with a request, rewritten) URL of one of its pairs; when distinct pairs
    carry distinct labels this is exactly one entry per pair. *)
Theorem url_set_contract (SO : SetOrder) (obj : Type) (OM : ObjectModel obj)
    (img : obj) (sizes : list pyval) (request : option (request_t obj))
    (vs : list pyval) :
  validate_versatileimagefield_sizekey_list sizes = Ok vs ->
  (Spec.no_image_no_placeholder img ->
   build_versatileimagefield_url_set img sizes request = Ok []) /\
  (Spec.image_or_placeholder img ->
   (forall e, e ∈ vs ->
              exists u, get_url_from_image_key img (Spec.key_of e) = Ok u) ->
   exists m,
     build_versatileimagefield_url_set img sizes request = Ok m /\
     NoDup m.*1 /\
     (forall l, l ∈ m.*1 <-> exists e, e ∈ vs /\ Spec.label_of e = l) /\
     (forall l v,
        dict_get m l = Some v ->
        exists e u,
          e ∈ vs /\ Spec.label_of e = l /\
          get_url_from_image_key img (Spec.key_of e) = Ok u /\
          v = Spec.rewritten request u) /\
     (NoDup (Spec.label_of <$> vs) ->
      Spec.one_entry_per_pair img request vs m)).
Proof.
  intros Hv. unfold build_versatileimagefield_url_set. rewrite Hv. simpl.
  split.
  - intros Hno. by rewrite (has_image_or_placeholder_false _ Hno).
  - intros Hyes Hres. rewrite (has_image_or_placeholder_true _ Hyes). simpl.
    destruct (validate_output _ _ Hv) as (Hg & Hh & _ & _).
    destruct (build_loop_spec img request vs Hg Hh Hres [] (NoDup_nil_2))
      as (m & Hm & Hnd & Hkeys & Hvals & _ & Hdistinct).
    exists m. split; [exact Hm|]. split; [exact Hnd|]. split; [|split].
    + intros l. rewrite Hkeys. simpl. rewrite elem_of_nil. tauto.
    + intros l v Hl. destruct (Hvals l v Hl) as [Hd | H]; [discriminate | exact H].
    + intros Hlab. apply Hdistinct; [exact Hlab|].
      intros e _. apply not_elem_of_nil.
Qed.

Lemma url_set_contract_witness :
  build_versatileimagefield_url_set empty_image
    (Spec.pair_val <$> two_pairs) None = Ok [] /\
  exists m,
    build_versatileimagefield_url_set example_image
      (Spec.pair_val <$> two_pairs) None = Ok m /\
    Spec.one_entry_per_pair example_image None (Spec.pair_val <$> two_pairs) m.
Proof.
  split.
  - apply (url_set_contract first_seen_order pyobj pyobj_model empty_image
             (Spec.pair_val <$> two_pairs) None (Spec.pair_val <$> two_pairs)).
    + reflexivity.
    + split; [reflexivity|].
      exists (OObj true [("placeholder_image", OStr "")] []), (OStr "").
      repeat split; reflexivity.
  - assert (validate_versatileimagefield_sizekey_list (Spec.pair_val <$> two_pairs)
            = Ok (Spec.pair_val <$> two_pairs)) as Hv by reflexivity.
    destruct (url_set_contract first_seen_order pyobj pyobj_model example_image
                (Spec.pair_val <$> two_pairs) None (Spec.pair_val <$> two_pairs)
                Hv) as [_ H].
    destruct H as (m & Hm & _ & _ & _ & Hone).
    + left. reflexivity.
    + intros e He. simpl in He. rewrite !elem_of_cons, elem_of_nil in He.
      destruct He as [-> | [-> | []]]; eexists; reflexivity.
    + exists m. split; [exact Hm|]. apply Hone.
      apply NoDup_cons. split; [|apply NoDup_singleton].
      by intros [=]%list_elem_of_singleton.
Defined.

Lemma validation_idempotent_dedup_witness :
  (exists out,
     validate_versatileimagefield_sizekey_list (Spec.pair_val <$> two_pairs)
     = Ok out /\
     NoDup out /\
     (forall v, v ∈ out <-> v ∈ Spec.pair_val <$> two_pairs) /\
     exists out2,
       validate_versatileimagefield_sizekey_list out = Ok out2 /\ out2 ≡ₚ out) /\
  (exists out,
     validate_versatileimagefield_sizekey_list
       [Spec.pair_val ("large", "url"); Spec.pair_val ("large", "url")] = Ok out /\
     validate_versatileimagefield_sizekey_list [Spec.pair_val ("large", "url")]
     = Ok out /\
     out = [Spec.pair_val ("large", "url")]).
Proof.
  split.
  - apply (proj1 validation_idempotent_dedup first_seen_order two_pairs).
    repeat constructor.
  - apply (proj1 (proj2 validation_idempotent_dedup) first_seen_order "large" "url").
    reflexivity.
Defined.

(** * Further properties of the module *)

(** ** More on strings *)

(** Appending on the right can be cancelled. *)
Lemma string_app_inv_tail (a b c : string) : a ++ c = b ++ c -> a = b.
Proof.
  revert b. induction a as [|x a IH]; intros [|y b] H; simpl in H.
  - reflexivity.
  - apply (f_equal String.length) in H. simpl in H.
    rewrite string_app_length in H. lia.
  - apply (f_equal String.length) in H. simpl in H.
    rewrite string_app_length in H. lia.
  - injection H as -> H. f_equal. by apply IH.
Qed.

(** Two strings cut at a separator character that the parts before it do
    not contain agree part by part. *)
Lemma string_cut_unique c (a a' r r' : string) :
  PyStr.contains c a = false -> PyStr.contains c a' = false ->
  a ++ String c r = a' ++ String c r' -> a = a' /\ r = r'.
Proof.
  revert a'. induction a as [|x a IH]; intros [|y a'] Ha Ha' H; simpl in *.
  - by injection H as ->.
  - injection H as <- _. by rewrite Ascii.eqb_refl in Ha'.
  - injection H as -> _. by rewrite Ascii.eqb_refl in Ha.
  - injection H as -> H.
    destruct (Ascii.eqb y c); [discriminate|].
    destruct (IH a' Ha Ha' H) as [-> ->]. done.
Qed.

Lemma remove_spaces_app a b :
  PyStr.remove_spaces (a ++ b) = PyStr.remove_spaces a ++ PyStr.remove_spaces b.
Proof.
  induction a as [|x a IH]; simpl; [reflexivity|].
  destruct (Ascii.eqb x " "); simpl; by rewrite IH.
Qed.

(** ["%d"] prints digits after an optional sign: no [x] in it, and the
    number can be read back. *)
Lemma string_of_uint_no_x d :
  PyStr.contains "x" (NilEmpty.string_of_uint d) = false.
Proof. induction d; simpl; auto. Qed.

Lemma fmt_d_no_x n : PyStr.contains "x" (PyStr.fmt_d n) = false.
Proof.
  unfold PyStr.fmt_d, NilZero.string_of_int, NilZero.string_of_uint.
  destruct (Z.to_int n) as [d|d]; destruct d; simpl;
    auto using string_of_uint_no_x.
Qed.

Lemma fmt_d_inj n m : PyStr.fmt_d n = PyStr.fmt_d m -> n = m.
Proof.
  unfold PyStr.fmt_d. intros H.
  assert (forall z, NilZero.int_of_string (NilZero.string_of_int (Z.to_int z))
                    = Some (Z.to_int z)) as Hisi.
  { intros z. apply NilZero.isi; destruct z; simpl; try discriminate;
      intros [= E]; by apply DecimalPos.Unsigned.to_uint_nonnil in E. }
  apply DecimalZ.to_int_inj.
  pose proof (Hisi n) as Hn. rewrite H, Hisi in Hn. congruence.
Qed.

(** ** More on file names *)

Lemma name_and_ext_no_dot filename :
  PyStr.contains "." (name_and_ext filename).2 = false.
Proof.
  destruct (name_and_ext_spec filename) as [(_ & _ & ->) | [_ H]];
    [reflexivity | exact H].
Qed.

Lemma name_and_ext_rebuild stem ext :
  PyStr.contains "." ext = false ->
  name_and_ext (stem ++ "." ++ ext) = (stem, ext).
Proof. intros H. apply stem_ext_unique. right. by split. Qed.

(** X1. A sized name and a filtered name keep the extension of the original
    name ([jpg] when it has none): cutting the encoded name on its last dot
    gives back that extension, and as stem the original stem followed by
    the encoded key. *)
Theorem encoded_names_keep_extension cfg fileName width height filenameKey :
  name_and_ext (get_resized_filename cfg fileName width height filenameKey)
  = ((name_and_ext fileName).1 ++ "-"
     ++ post_process_image_key cfg
          (Spec.resized_key cfg (name_and_ext fileName).2 width height filenameKey),
     (name_and_ext fileName).2) /\
  name_and_ext (get_filtered_filename fileName filenameKey)
  = ((name_and_ext fileName).1 ++ "__" ++ filenameKey ++ "__",
     (name_and_ext fileName).2).
Proof.
  pose proof (name_and_ext_no_dot fileName) as Hext. split.
  - rewrite get_resized_filename_eq, post_process_image_key_hook.
    rewrite <- (name_and_ext_rebuild _ _ Hext). f_equal.
    by rewrite !string_app_assoc.
  - rewrite get_filtered_filename_eq.
    rewrite <- (name_and_ext_rebuild _ _ Hext). f_equal.
    by rewrite !string_app_assoc.
Qed.

Lemma stem_prefix_neq (stem a b : string) : a <> b -> stem ++ a <> stem ++ b.
Proof. intros Hne H. by apply (inj (String.append stem)) in H. Qed.

Lemma name_and_ext_whole filename :
  filename = (name_and_ext filename).1 \/
  filename = (name_and_ext filename).1 ++ "." ++ (name_and_ext filename).2.
Proof.
  destruct (name_and_ext_spec filename) as [(_ & H & _) | [H _]]; auto.
Qed.

(** X2. For one original file name, a sized name is never a filtered name,
    and neither of them is the original name, whatever the keys, the sizes
    and the hook. *)
Theorem encoded_names_are_new cfg fileName width height sizedKey filteredKey :
  get_resized_filename cfg fileName width height sizedKey
  <> get_filtered_filename fileName filteredKey /\
  get_resized_filename cfg fileName width height sizedKey <> fileName /\
  get_filtered_filename fileName filteredKey <> fileName.
Proof.
  rewrite get_resized_filename_eq, get_filtered_filename_eq.
  split; [by apply stem_prefix_neq|].
  pose proof (name_and_ext_whole fileName) as H.
  remember (name_and_ext fileName) as p eqn:Hp. clear Hp.
  destruct H as [-> | ->].
  - split; intros H; rewrite <- (string_app_nil_r p.1) in H at 2;
      by apply (inj (String.append _)) in H.
  - split; by apply stem_prefix_neq.
Qed.

(** X3. When the hook is injective (in particular when none is configured),
    two sized names of one file for one filename key are equal only for
    equal widths and equal heights. *)
Theorem sized_name_separates_sizes cfg fileName filenameKey w h w' h' :
  (forall a b, Spec.hook cfg a = Spec.hook cfg b -> a = b) ->
  get_resized_filename cfg fileName w h filenameKey
  = get_resized_filename cfg fileName w' h' filenameKey ->
  w = w' /\ h = h'.
Proof.
  intros Hinj. rewrite !get_resized_filename_eq. intros H.
  apply (inj (String.append _)), (inj (String.append _)) in H.
  apply string_app_inv_tail, Hinj in H. unfold Spec.resized_key in H.
  apply (inj (String.append _)), (inj (String.append _)) in H.
  change (?a ++ "x" ++ ?b) with (a ++ String "x" b) in H.
  apply string_cut_unique in H as [Hw Hh]; [|apply fmt_d_no_x..].
  apply string_app_inv_tail in Hh. split; by apply fmt_d_inj.
Qed.

Lemma sized_name_separates_sizes_witness :
  (Z.succ 399 = 400 /\ Z.succ 299 = 300)%Z.
Proof.
  apply (sized_name_separates_sizes plain_cfg "photo.jpg" "crop"
           (Z.succ 399) (Z.succ 299) 400 300).
  - intros a b H. exact H.
  - reflexivity.
Defined.

(** ** More on paths *)

Lemma join_step_ends path b : exists pre, PosixPath.join_step path b = pre ++ b.
Proof.
  unfold PosixPath.join_step. destruct (PyStr.starts_with_slash b).
  - by exists "".
  - destruct (PyStr.is_empty path || PyStr.ends_with_slash path).
    + by exists path.
    + exists (path ++ "/"). by rewrite string_app_assoc.
Qed.

Lemma join_step_starts path b :
  PyStr.starts_with_slash b = false ->
  exists rest, PosixPath.join_step path b = path ++ rest.
Proof.
  unfold PosixPath.join_step. intros ->.
  destruct (PyStr.is_empty path || PyStr.ends_with_slash path); by eexists.
Qed.

(** X4. The sized and the filtered path end with the encoded file name,
    spaces removed: whatever the directories are, the last component of the
    returned path is the sized (filtered) name of the original's file name. *)
Theorem paths_end_with_encoded_name cfg (Storage : Type) (storage : Storage)
    path width height filenameKey :
  (exists pre,
     get_resized_path cfg path width height filenameKey storage =
     pre ++ PyStr.remove_spaces
              (get_resized_filename cfg (PosixPath.split path).2
                 width height filenameKey)) /\
  (exists pre,
     get_filtered_path cfg path filenameKey storage =
     pre ++ PyStr.remove_spaces
              (get_filtered_filename (PosixPath.split path).2 filenameKey)).
Proof.
  unfold get_resized_path, get_filtered_path, PosixPath.join.
  destruct (PosixPath.split path) as [folder name]. simpl. split.
  - destruct (join_step_ends
                (PosixPath.join_step (VERSATILEIMAGEFIELD_SIZED_DIRNAME cfg) folder)
                (get_resized_filename cfg name width height filenameKey))
      as [pre ->].
    exists (PyStr.remove_spaces pre). apply remove_spaces_app.
  - destruct (join_step_ends
                (PosixPath.join_step folder (VERSATILEIMAGEFIELD_FILTERED_DIRNAME cfg))
                (get_filtered_filename name filenameKey))
      as [pre ->].
    exists (PyStr.remove_spaces pre). apply remove_spaces_app.
Qed.

Lemma rstrip_slash_nonempty s :
  PyStr.all_slashes s = false -> PyStr.rstrip_slash s <> "".
Proof.
  induction s as [|c s IH]; simpl; [discriminate|].
  destruct (Ascii.eqb c "/") eqn:Ec; simpl.
  - intros H. specialize (IH H). by destruct (PyStr.rstrip_slash s).
  - intros _. by destruct (PyStr.rstrip_slash s).
Qed.

Lemma rstrip_slash_head c s :
  PyStr.all_slashes (String c s) = false ->
  exists r, PyStr.rstrip_slash (String c s) = String c r.
Proof.
  simpl. destruct (Ascii.eqb c "/") eqn:Ec; simpl.
  - intros H. apply rstrip_slash_nonempty in H.
    destruct (PyStr.rstrip_slash s); [done | by eexists].
  - intros _. destruct (PyStr.rstrip_slash s); by eexists.
Qed.

(** The folder returned by [os.path.split] starts with a slash exactly when
    the path does. *)
Lemma posix_split_head_slash p :
  PyStr.starts_with_slash (PosixPath.split p).1 = PyStr.starts_with_slash p.
Proof.
  unfold PosixPath.split. pose proof (cut_after_last_slash_spec p) as H.
  destruct (PosixPath.cut_after_last_slash p) as [h t].
  destruct H as (-> & Ht & Hh & _). simpl.
  destruct h as [|c h]; simpl.
  - destruct t as [|x t]; [reflexivity|]. simpl in Ht |- *.
    destruct (Ascii.eqb_spec x "/") as [->|Hx]; [discriminate|].
    destruct x as [[] [] [] [] [] [] [] []]; try reflexivity. by destruct Hx.
  - destruct (Ascii.eqb c "/" && PyStr.all_slashes h) eqn:Ea; simpl.
    + reflexivity.
    + destruct (rstrip_slash_head c h Ea) as [r Hr]. simpl in Hr.
      by rewrite Hr.
Qed.

Lemma starts_with_slash_app a b :
  PyStr.contains "/" a = false ->
  PyStr.starts_with_slash b = false ->
  PyStr.starts_with_slash (a ++ b) = false.
Proof.
  destruct a as [|x a]; simpl; [by intros _|].
  destruct (Ascii.eqb_spec x "/") as [->|Hx]; [discriminate|]. intros _ _.
  destruct x as [[] [] [] [] [] [] [] []]; try reflexivity. by destruct Hx.
Qed.

Lemma stem_no_slash filename :
  PyStr.contains "/" filename = false ->
  PyStr.contains "/" (name_and_ext filename).1 = false.
Proof.
  intros H. destruct (name_and_ext_whole filename) as [E|E];
    rewrite E in H; [exact H|].
  rewrite contains_app in H. by apply orb_false_iff in H as [H _].
Qed.

(** X5. For a relative original path the sized path starts with the sized
    directory name (spaces removed); for an absolute original path the sized
    directory is dropped by the join, and the sized path is the containing
    folder joined with the sized name. *)
Theorem sized_dir_only_for_relative_paths cfg (Storage : Type)
    (storage : Storage) path width height filenameKey :
  (PyStr.starts_with_slash path = false ->
   exists rest,
     get_resized_path cfg path width height filenameKey storage =
     PyStr.remove_spaces (VERSATILEIMAGEFIELD_SIZED_DIRNAME cfg) ++ rest) /\
  (PyStr.starts_with_slash path = true ->
   get_resized_path cfg path width height filenameKey storage =
   PyStr.remove_spaces
     (PosixPath.join_step (PosixPath.split path).1
        (get_resized_filename cfg (PosixPath.split path).2
           width height filenameKey))).
Proof.
  pose proof (posix_split_head_slash path) as Hhead.
  pose proof (posix_split_tail path) as Htail.
  unfold get_resized_path, PosixPath.join.
  destruct (PosixPath.split path) as [folder name]. simpl in *. split.
  - intros Hrel. rewrite Hrel in Hhead.
    destruct (join_step_starts (VERSATILEIMAGEFIELD_SIZED_DIRNAME cfg) folder Hhead)
      as [r1 ->].
    destruct (join_step_starts (VERSATILEIMAGEFIELD_SIZED_DIRNAME cfg ++ r1)
                (get_resized_filename cfg name width height filenameKey))
      as [r2 ->].
    + rewrite get_resized_filename_eq.
      apply starts_with_slash_app; [by apply stem_no_slash | reflexivity].
    + exists (PyStr.remove_spaces (r1 ++ r2)).
      by rewrite string_app_assoc, remove_spaces_app.
  - intros Habs. rewrite Habs in Hhead.
    unfold PosixPath.join_step at 2. by rewrite Hhead.
Qed.

Lemma sized_dir_only_for_relative_paths_witness :
  (exists rest,
     get_resized_path plain_cfg "media/photo 1.jpg" 400 300 "crop" tt =
     "__sized__" ++ rest) /\
  get_resized_path plain_cfg "/media/photo 1.jpg" 400 300 "crop" tt =
  "/media/photo1-crop-400x300-70.jpg".
Proof.
  split.
  - apply (sized_dir_only_for_relative_paths plain_cfg unit tt
             "media/photo 1.jpg" 400 300 "crop").
    reflexivity.
  - apply (sized_dir_only_for_relative_paths plain_cfg unit tt
             "/media/photo 1.jpg" 400 300 "crop").
    reflexivity.
Defined.

(** ** More on validation *)

Section ValidationErrors.

Context {SO : SetOrder}.

Lemma validate_raises_classes sizes err :
  validate_versatileimagefield_sizekey_list sizes = Raised err ->
  exn_cls err = InvalidSizeKeySet \/ exn_cls err = InvalidSizeKey \/
  exn_cls err = TypeError \/ exn_cls err = AttributeError.
Proof.
  unfold validate_versatileimagefield_sizekey_list.
  destruct (validate_loop sizes) as [[]|e] eqn:E.
  - intros H. apply py_list_set_Raised in H. tauto.
  - apply validate_loop_Raised in E
      as (pre & x & post & _ & _ & [Hu | (p & _ & Hc)]).
    + apply unpack2_raises in Hu. destruct e as [c v]. simpl in Hu.
      destruct Hu as [-> | ->]; intros [= <-]; simpl; tauto.
    + apply check_size_key_raises in Hc. destruct e as [c v]. simpl in Hc.
      destruct Hc as [-> | ->]; intros [= <-]; simpl; tauto.
Qed.

(** X6. Validation never lets a [ValueError] (or any error other than the
    four below) out: a failure is an [InvalidSizeKeySet], an
    [InvalidSizeKey], a [TypeError] (an element that is not iterable or not
    hashable) or an [AttributeError] (a size key that is not a string). *)
Theorem validation_error_classes sizes err :
  validate_versatileimagefield_sizekey_list sizes = Raised err ->
  exn_cls err = InvalidSizeKeySet \/ exn_cls err = InvalidSizeKey \/
  exn_cls err = TypeError \/ exn_cls err = AttributeError.
Proof. apply validate_raises_classes. Qed.

(** X7. The errors that validation does not convert: when the first element
    that is not a good pair is [None] or an integer, the [TypeError] of
    unpacking it propagates; when it is a pair whose size key is not a
    string, the [AttributeError] of the missing [split] method propagates. *)
Theorem validation_uncaught_errors pre elem post :
  forallb Spec.good_pair pre = true ->
  ((elem = PNone \/ exists n, elem = PInt n) ->
   validate_versatileimagefield_sizekey_list (pre ++ elem :: post)
   = raise TypeError elem) /\
  (forall label key,
     unpack2 elem = Ok (label, key) ->
     (forall s, key <> PStr s) ->
     validate_versatileimagefield_sizekey_list (pre ++ elem :: post)
     = raise AttributeError (PStr "split")).
Proof.
  intros Hpre. unfold validate_versatileimagefield_sizekey_list. split.
  - intros Hel.
    assert (validate_loop (pre ++ elem :: post) = raise TypeError elem) as ->;
      [|reflexivity].
    apply validate_loop_Raised. exists pre, elem, post.
    split; [reflexivity|]. split; [exact Hpre|]. left.
    by destruct Hel as [-> | [n ->]].
  - intros label key Hu Hkey.
    assert (validate_loop (pre ++ elem :: post)
            = raise AttributeError (PStr "split")) as ->; [|reflexivity].
    apply validate_loop_Raised. exists pre, elem, post.
    split; [reflexivity|]. split; [exact Hpre|]. right.
    exists (label, key). split; [exact Hu|]. simpl.
    destruct key as [| |s| |]; try reflexivity. by destruct (Hkey s).
Qed.

End ValidationErrors.

Lemma validation_error_classes_witness :
  exn_cls (Exn InvalidSizeKey (PStr "crop_400_400")) = InvalidSizeKeySet \/
  exn_cls (Exn InvalidSizeKey (PStr "crop_400_400")) = InvalidSizeKey \/
  exn_cls (Exn InvalidSizeKey (PStr "crop_400_400")) = TypeError \/
  exn_cls (Exn InvalidSizeKey (PStr "crop_400_400")) = AttributeError.
Proof.
  apply (@validation_error_classes first_seen_order mixed_sizes). reflexivity.
Defined.

Lemma validation_uncaught_errors_witness :
  validate_versatileimagefield_sizekey_list
    [PTuple [PStr "large"; PStr "url"]; PInt 5]
  = raise TypeError (PInt 5) /\
  validate_versatileimagefield_sizekey_list
    [PTuple [PStr "large"; PStr "url"]; PTuple [PStr "small"; PInt 100]]
  = raise AttributeError (PStr "split").
Proof.
  split.
  - apply (@validation_uncaught_errors first_seen_order
             [PTuple [PStr "large"; PStr "url"]] (PInt 5) []).
    + reflexivity.
    + right. by exists 5%Z.
  - apply (proj2 (@validation_uncaught_errors first_seen_order
             [PTuple [PStr "large"; PStr "url"]]
             (PTuple [PStr "small"; PInt 100]) [] eq_refl)
             (PStr "small") (PInt 100)).
    + reflexivity.
    + discriminate.
Defined.

(** ** The registry of rendition key sets *)

(** X8. [get_rendition_key_set] fails with [ImproperlyConfigured] exactly
    for the names that are not in the configured table, naming the key; for
    a name in the table it is the validation of the configured set, errors
    included. *)
Theorem rendition_key_set_lookup (SO : SetOrder) cfg key :
  (forall v,
     get_rendition_key_set cfg key = raise ImproperlyConfigured v <->
     IMAGE_SETS cfg !! key = None /\ v = PStr key) /\
  (forall set,
     IMAGE_SETS cfg !! key = Some set ->
     get_rendition_key_set cfg key
     = validate_versatileimagefield_sizekey_list set).
Proof.
  unfold get_rendition_key_set. split.
  - intros v. destruct (IMAGE_SETS cfg !! key) as [set|] eqn:E.
    + split; [|by intros [? _]]. intros H.
      apply validate_raises_classes in H. simpl in H.
      destruct H as [H|[H|[H|H]]]; discriminate.
    + split; [intros [= <-]; done | by intros [_ ->]].
  - by intros set ->.
Qed.

Lemma rendition_key_set_lookup_witness :
  get_rendition_key_set
    (Settings {["product" := Spec.pair_val <$> two_pairs]} 70 None "s" "f" 75)
    "product"
  = Ok (Spec.pair_val <$> two_pairs) /\
  get_rendition_key_set
    (Settings {["product" := Spec.pair_val <$> two_pairs]} 70 None "s" "f" 75)
    "missing"
  = raise ImproperlyConfigured (PStr "missing").
Proof.
  split.
  - rewrite (proj2 (rendition_key_set_lookup first_seen_order
               (Settings {["product" := Spec.pair_val <$> two_pairs]} 70 None "s" "f" 75)
               "product") (Spec.pair_val <$> two_pairs)).
    + reflexivity.
    + vm_compute. reflexivity.
  - apply (proj1 (rendition_key_set_lookup first_seen_order
               (Settings {["product" := Spec.pair_val <$> two_pairs]} 70 None "s" "f" 75)
               "missing")).
    split; [vm_compute; reflexivity | reflexivity].
Defined.

(** ** More on URL resolution *)

Lemma split_dunder_prefix segment rest :
  PyStr.contains "_" segment = false ->
  PyStr.split_dunder (segment ++ "__" ++ rest)
  = segment :: PyStr.split_dunder rest.
Proof.
  induction segment as [|c s IH]; [reflexivity|]. intros Hs. simpl in Hs.
  destruct (Ascii.eqb_spec c "_") as [->|Hc]; [discriminate|].
  change (String c s ++ "__" ++ rest) with (String c (s ++ "__" ++ rest)).
  destruct (split_dunder_step c (s ++ "__" ++ rest))
    as [(r & -> & _) | (h & t & E & ->)]; [done|].
  rewrite (IH Hs) in E. by injection E as <- <-.
Qed.

Lemma last_segment_prefix segment rest :
  PyStr.contains "_" segment = false ->
  Spec.last_segment (segment ++ "__" ++ rest) = Spec.last_segment rest.
Proof.
  intros H. unfold Spec.last_segment. rewrite (split_dunder_prefix _ _ H).
  pose proof (split_dunder_nonempty rest).
  by destruct (PyStr.split_dunder rest).
Qed.

Section ResolutionMore.

Context {obj : Type} {OM : ObjectModel obj}.

(** X9. Resolution peels the key one capability at a time: for a first
    segment without underscore, resolving [segment__rest] from the root is
    looking up the capability [segment] on the root and resolving [rest]
    from the object found; a missing capability fails the whole
    resolution. *)
Theorem resolution_peels_first_segment (root : obj) segment rest :
  PyStr.contains "_" segment = false ->
  get_url_from_image_key root (PStr (segment ++ "__" ++ rest)) =
  (cur ← py_getattr root segment; get_url_from_image_key cur (PStr rest)).
Proof.
  intros H. rewrite get_url_from_image_key_eq.
  transitivity (cur ← py_getattr root segment; Spec.ResolveURL cur rest);
    [|destruct (py_getattr root segment); simpl;
      [by rewrite get_url_from_image_key_eq | done]].
  unfold Spec.ResolveURL, Spec.chain, Spec.dimension_token.
  rewrite (last_segment_prefix _ _ H), (split_dunder_prefix _ _ H).
  pose proof (split_dunder_nonempty rest) as Hne.
  assert (removelast (segment :: PyStr.split_dunder rest)
          = segment :: removelast (PyStr.split_dunder rest)) as Hrl
    by (by destruct (PyStr.split_dunder rest)).
  destruct (PyStr.contains "x" (Spec.last_segment rest)).
  - rewrite Hrl, walk_cons. by destruct (py_getattr root segment).
  - rewrite walk_cons. by destruct (py_getattr root segment).
Qed.

(** X10. The value resolved for a size key that passes validation is always
    a [url] attribute found from the root along the key: when the last
    segment is a dimension token, the [url] of the entry keyed by that token
    on the object reached from the root by the other segments; when the last
    segment is [url], the [url] of the object reached from the root by the
    segments before it. *)
Theorem valid_key_resolves_to_url_attribute (root : obj) sizeKey u :
  Spec.size_key_ok sizeKey = true ->
  get_url_from_image_key root (PStr sizeKey) = Ok u ->
  (exists token before final entry,
     PyStr.contains "x" token = true /\
     PyStr.split_dunder sizeKey = (before ++ [token])%list /\
     Spec.walk before root = Ok final /\
     py_getitem final token = Ok entry /\
     py_getattr entry "url" = Ok u) \/
  (exists before holder,
     PyStr.split_dunder sizeKey = (before ++ ["url"])%list /\
     Spec.walk before root = Ok holder /\
     py_getattr holder "url" = Ok u).
Proof.
  intros Hok. rewrite get_url_from_image_key_eq. unfold Spec.ResolveURL.
  destruct (Spec.dimension_token sizeKey) as [token|] eqn:Et.
  - destruct (dimension_token_Some _ _ Et) as (_ & Hx & Hs).
    destruct (Spec.walk (Spec.chain sizeKey) root) as [final|e] eqn:Ew;
      [|discriminate].
    simpl. destruct (py_getitem final token) as [entry|e] eqn:Ei; [|discriminate].
    simpl. intros H. left. by exists token, (Spec.chain sizeKey), final, entry.
  - destruct (dimension_token_None _ Et) as [Hx Hc].
    unfold Spec.size_key_ok in Hok. rewrite Hx, orb_false_r in Hok.
    apply bool_decide_eq_true_1 in Hok.
    pose proof (split_dunder_snoc sizeKey) as Hs. rewrite Hok in Hs.
    rewrite Hc, Hs, walk_app.
    destruct (Spec.walk _ root) as [holder|e] eqn:Ew; [|discriminate]. simpl.
    rewrite walk_cons. destruct (py_getattr holder "url") as [v|e] eqn:Eu;
      [|discriminate].
    simpl. intros [= <-]. right.
    by exists (removelast (PyStr.split_dunder sizeKey)), holder.
Qed.

End ResolutionMore.

Lemma resolution_peels_first_segment_witness :
  get_url_from_image_key example_image (PStr ("crop" ++ "__" ++ "400x400")) =
  get_url_from_image_key
    (OObj true [] [("400x400", OObj true [("url", OStr "http://x/y.jpg")] [])])
    (PStr "400x400").
Proof.
  rewrite (resolution_peels_first_segment example_image "crop" "400x400").
  - reflexivity.
  - reflexivity.
Defined.

Lemma valid_key_resolves_to_url_attribute_witness :
  (exists token before final entry,
     PyStr.contains "x" token = true /\
     PyStr.split_dunder "crop__400x400" = (before ++ [token])%list /\
     Spec.walk before example_image = Ok final /\
     py_getitem final token = Ok entry /\
     py_getattr entry "url" = Ok (OStr "http://x/y.jpg")) \/
  (exists before holder,
     PyStr.split_dunder "crop__400x400" = (before ++ ["url"])%list /\
     Spec.walk before example_image = Ok holder /\
     py_getattr holder "url" = Ok (OStr "http://x/y.jpg")).
Proof.
  apply (valid_key_resolves_to_url_attribute example_image "crop__400x400").
  - reflexivity.
  - reflexivity.
Defined.

(** ** More on the URL set *)


Section URLSetMore.

Context {SO : SetOrder} {obj : Type} {OM : ObjectModel obj}.
Implicit Types (img : obj) (request : option (request_t obj))
  (d m : list (pyval * obj)).

(** X11. The order of the checks: an invalid collection fails the build
    with the validation error whatever the image instance is; after a
    successful validation, a falsy image instance on which the [field]
    attribute, or the field's [placeholder_image] attribute, is missing
    fails the build with that lookup's error, whatever the collection
    holds (an empty one included). *)
Theorem url_set_early_failures img sizes request :
  (forall err,
     validate_versatileimagefield_sizekey_list sizes = Raised err ->
     build_versatileimagefield_url_set img sizes request = Raised err) /\
  (forall vs err,
     validate_versatileimagefield_sizekey_list sizes = Ok vs ->
     py_bool img = false ->
     py_getattr img "field" = Raised err \/
     (exists field,
        py_getattr img "field" = Ok field /\
        py_getattr field "placeholder_image" = Raised err) ->
     build_versatileimagefield_url_set img sizes request = Raised err).
Proof.
  unfold build_versatileimagefield_url_set, has_image_or_placeholder. split.
  - by intros err ->.
  - intros vs err -> Hb [Hf | (field & Hf & Hp)]; simpl; rewrite Hb, Hf; simpl.
    + reflexivity.
    + by rewrite Hp.
Qed.

Lemma build_loop_fails img request vs :
  forallb Spec.good_pair vs = true ->
  forallb hashable vs = true ->
  (exists e err,
     e ∈ vs /\ get_url_from_image_key img (Spec.key_of e) = Raised err) ->
  forall d,
    exists e err,
      e ∈ vs /\
      get_url_from_image_key img (Spec.key_of e) = Raised err /\
      build_loop img request vs d = Raised err.
Proof.
  induction vs as [|x vs IH]; intros Hgood Hhash (e & err & He & Herr) d.
  - by apply elem_of_nil in He.
  - simpl in Hgood, Hhash.
    apply andb_true_iff in Hgood as [Hg Hgood].
    apply andb_true_iff in Hhash as [Hh Hhash].
    destruct (get_url_from_image_key img (Spec.key_of x)) as [u|err'] eqn:Ex.
    + rewrite (build_loop_step _ _ _ _ _ _ Hg Hh Ex).
      apply elem_of_cons in He as [-> | He]; [congruence|].
      destruct (IH Hgood Hhash (ex_intro _ e (ex_intro _ err (conj He Herr)))
                  (dict_set d (Spec.label_of x) (Spec.rewritten request u)))
        as (e' & err'' & He' & Herr' & Hb).
      exists e', err''. split; [by apply list_elem_of_further | done].
    + exists x, err'. split; [apply list_elem_of_here|]. split; [exact Ex|].
      destruct (good_pair_unpack x Hg) as (k & Hun & Hk).
      simpl. rewrite Hun. simpl. by rewrite <- Hk, Ex.
Qed.

(** X12. The build is all or nothing: for a valid collection and an image
    instance that is truthy or has a placeholder, if some validated pair has
    a key that does not resolve, the build returns no mapping; it fails
    with the lookup error of such a pair. *)
Theorem url_set_fails_fast img sizes request vs :
  validate_versatileimagefield_sizekey_list sizes = Ok vs ->
  Spec.image_or_placeholder img ->
  (exists e err,
     e ∈ vs /\ get_url_from_image_key img (Spec.key_of e) = Raised err) ->
  exists e err,
    e ∈ vs /\
    get_url_from_image_key img (Spec.key_of e) = Raised err /\
    build_versatileimagefield_url_set img sizes request = Raised err.
Proof.
  intros Hv Himg Hbad.
  destruct (validate_output _ _ Hv) as (Hg & Hh & _ & _).
  unfold build_versatileimagefield_url_set. rewrite Hv. simpl.
  rewrite (has_image_or_placeholder_true _ Himg). simpl.
  by apply build_loop_fails.
Qed.



End URLSetMore.

Lemma url_set_early_failures_witness :
  build_versatileimagefield_url_set bare_root mixed_sizes None
  = raise InvalidSizeKey (PStr "crop_400_400") /\
  build_versatileimagefield_url_set (OObj false [] []) [] None
  = raise AttributeError (PStr "field").
Proof.
  split.
  - apply (proj1 (url_set_early_failures bare_root mixed_sizes None)).
    reflexivity.
  - apply (proj2 (url_set_early_failures (OObj false [] []) [] None)
             [] (Exn AttributeError (PStr "field"))).
    + reflexivity.
    + reflexivity.
    + left. reflexivity.
Defined.

Lemma url_set_fails_fast_witness :
  exists e err,
    e ∈ unresolved_sizes /\
    get_url_from_image_key example_image (Spec.key_of e) = Raised err /\
    build_versatileimagefield_url_set example_image unresolved_sizes None
    = Raised err.
Proof.
  apply (url_set_fails_fast example_image unresolved_sizes None unresolved_sizes).
  - reflexivity.
  - left. reflexivity.
  - exists (PTuple [PStr "small"; PStr "thumbnail__100x100"]),
      (Exn AttributeError (PStr "thumbnail")).
    split; [apply list_elem_of_here | reflexivity].
Defined.

(** ** Validation and the order of the input *)

(** X14. Whether validation succeeds does not depend on the order or the
    repetitions of the input: two collections with the same elements both
    validate or both fail, and when they validate the outputs hold the same
    pairs. (Which error a failing collection raises does depend on the
    order.) *)
Theorem validation_success_ignores_order (SO : SetOrder) sizes sizes' out :
  (forall x, x ∈ sizes <-> x ∈ sizes') ->
  validate_versatileimagefield_sizekey_list sizes = Ok out ->
  exists out',
    validate_versatileimagefield_sizekey_list sizes' = Ok out' /\
    out' ≡ₚ out.
Proof.
  intros Hsame (Hg & Hh & ->)%validate_Ok.
  exists (set_list sizes'). split.
  - apply validate_Ok. split; [|split; [|reflexivity]].
    + apply forallb_forall. intros x Hx.
      apply list_elem_of_In, Hsame, list_elem_of_In in Hx.
      by apply (proj1 (forallb_forall _ _) Hg).
    + apply forallb_forall. intros x Hx.
      apply list_elem_of_In, Hsame, list_elem_of_In in Hx.
      by apply (proj1 (forallb_forall _ _) Hh).
  - apply NoDup_Permutation; [apply set_list_NoDup..|].
    intros x. rewrite !set_list_elem. symmetry. apply Hsame.
Qed.

Lemma validation_success_ignores_order_witness :
  exists out',
    validate_versatileimagefield_sizekey_list
      [Spec.pair_val ("medium", "crop__400x400"); Spec.pair_val ("large", "url");
       Spec.pair_val ("large", "url")] = Ok out' /\
    out' ≡ₚ Spec.pair_val <$> two_pairs.
Proof.
  apply (validation_success_ignores_order first_seen_order
           (Spec.pair_val <$> two_pairs)).
  - intros x. simpl. rewrite !elem_of_cons, elem_of_nil. tauto.
  - reflexivity.
Defined.
